(** * tfit: fetch, map and render of EC2 instances and VPCs

    A shallow embedding of [pkg/tfit/helper.go] and of the instance and VPC
    code that follows it: the error allow-list, the string helpers used by
    the templates, the mapping of [ec2.Instance] values into the package's
    own [Instance] struct, the paginated fetch loops and the instance
    template. *)

From Stdlib Require Import ZArith Ascii String.
From stdpp Require Import gmap strings list fin_maps sorting.

Local Open Scope Z_scope.
Local Open Scope string_scope.
Local Open Scope list_scope.
Local Open Scope stdpp_scope.

(** ** Strings: the parts of Go's [strings] and [fmt] the package calls *)

(** The one-byte string holding a double quote (byte 34). *)
Definition dquote : string := String "034"%char EmptyString.

(** [strings.HasPrefix(s, prefix)]. *)
Definition strings_HasPrefix (s pre : string) : bool := String.prefix pre s.

(** [strings.HasSuffix(s, suffix)]:
    [len(s) >= len(suffix) && s[len(s)-len(suffix):] == suffix]. *)
Definition strings_HasSuffix (s suf : string) : bool :=
  (String.length suf <=? String.length s)%nat
  && String.eqb
       (String.substring (String.length s - String.length suf)
                         (String.length suf) s)
       suf.

(** [strings.Join(elems, sep)]. *)
Definition strings_Join (elems : list string) (sep : string) : string :=
  String.concat sep elems.

(** [strings.Compare(a, b)]: -1, 0 or 1, bytewise lexicographic. *)
Definition strings_Compare (a b : string) : Z :=
  match String.compare a b with
  | Eq => 0
  | Lt => -1
  | Gt => 1
  end.

(** [strings.Split(s, sep)] for a separator of one byte, which is what both
    call sites of the package pass (a slash).  The result always has
    one more element than [s] has separators, so it is never empty. *)
Fixpoint strings_Split (s : string) (sep : ascii) : list string :=
  match s with
  | EmptyString => [EmptyString]
  | String c s' =>
      if Ascii.eqb c sep then EmptyString :: strings_Split s' sep
      else match strings_Split s' sep with
           | seg :: rest => String c seg :: rest
           | [] => [String c EmptyString]
           end
  end.

Definition slash : ascii := "/"%char.

(** ** [quote] and [joinStringSlice] *)

(** [func quote(src string) string]; the format verb [%s]
    between two double quotes is plain concatenation. *)
Definition quote (src : string) : string :=
  if strings_HasPrefix src dquote && strings_HasSuffix src dquote
  then src
  else dquote +:+ src +:+ dquote.

(** One iteration of [for k, v := range src { src[k] = quote(v) }]: the
    element at index [k] is read from the backing array and overwritten. *)
Definition joinStringSlice_step (src : list string) (k : nat) : list string :=
  match src !! k with
  | Some v => <[k := quote v]> src
  | None => src
  end.

(** [func joinStringSlice(sep string, src []string) string].  A Go slice
    argument shares its backing array with the caller, so the function is
    modelled as returning the caller's array after the call together with
    the returned string. *)
Definition joinStringSlice (sep : string) (src : list string)
  : list string * string :=
  let src' := foldl joinStringSlice_step src (seq 0 (length src)) in
  (src', strings_Join src' sep).

(** ** Errors and [handleError] *)

(** A Go [error] value: either one that implements [awserr.Error] (with
    its code and message), or any other error. *)
Inductive error_value : Type :=
| AwsError (code message : string)
| OtherError (text : string).

(** The [error] interface: [None] is the nil error. *)
Definition error : Type := option error_value.

(** The codes of the [switch] in [handleError], in source order. *)
Definition allow_list : list string :=
  [ "NoSuchBucketPolicy";
    "NoSuchWebsiteConfiguration";
    "NoSuchLifecycleConfiguration";
    "ReplicationConfigurationNotFoundError";
    "ServerSideEncryptionConfigurationNotFoundError";
    "NoSuchCORSConfiguration" ].

(** [func handleError(err error) error]. *)
Definition handleError (err : error) : error :=
  match err with
  | Some (AwsError code _) =>
      if String.eqb code "NoSuchBucketPolicy" then None
      else if String.eqb code "NoSuchWebsiteConfiguration" then None
      else if String.eqb code "NoSuchLifecycleConfiguration" then None
      else if String.eqb code "ReplicationConfigurationNotFoundError" then None
      else if String.eqb code "ServerSideEncryptionConfigurationNotFoundError"
      then None
      else if String.eqb code "NoSuchCORSConfiguration" then None
      else err
  | _ => err
  end.

(** ** Memory: string cells, and computations that may panic

    Go's [*string] values are compared by address when they are used as
    map keys ([Instance.Tags]), so string pointers are modelled as
    addresses into a store of string cells.  [*bool] and [*int64] values
    are only ever copied and read, never compared or written through, and
    are modelled by their pointee ([None] is nil). *)

Abbreviation addr := nat (only parsing).

(** The string cells allocated so far; cell [a] is the [a]-th element. *)
Abbreviation store := (list string) (only parsing).

(** A [*string]: nil or the address of a cell. *)
Abbreviation strptr := (option nat) (only parsing).

(** A pointer that is nil or the address of an allocated cell, as every
    pointer of a Go program is. *)
Definition valid_ptr (σ : store) (p : strptr) : Prop :=
  match p with
  | Some a => (a < length σ)%nat
  | None => True
  end.

(** The result of running a piece of Go code from a state of type [S]:
    it returns a value, it panics, or (for the fetch loop, which is run
    with a bound on its iterations) the bound is reached.  Each case
    carries the state reached. *)
Inductive outcome (S A : Type) : Type :=
| Done (a : A) (s : S)
| Panic (s : S)
| Exhausted (s : S).

Arguments Done {S A} a s.
Arguments Panic {S A} s.
Arguments Exhausted {S A} s.

Definition Comp (S A : Type) : Type := S -> outcome S A.

Definition ret {S A : Type} (a : A) : Comp S A := fun s => Done a s.

Definition bind {S A B : Type} (m : Comp S A) (k : A -> Comp S B)
  : Comp S B :=
  fun s =>
    match m s with
    | Done a s' => k a s'
    | Panic s' => Panic s'
    | Exhausted s' => Exhausted s'
    end.

Definition panic {S A : Type} : Comp S A := fun s => Panic s.

Notation "'let*' x ':=' m 'in' k" := (bind m (fun x => k))
  (at level 10, x name, m at level 100, k at level 200).

Notation "'let*' ' pat ':=' m 'in' k" :=
  (bind m (fun x => match x with pat => k end))
  (at level 10, pat pattern, m at level 100, k at level 200).

(** Dereferencing a struct pointer: a nil pointer dereference panics. *)
Definition deref {S A : Type} (p : option A) : Comp S A :=
  match p with
  | Some a => ret a
  | None => panic
  end.

(** [xs[k]]: an index out of range panics. *)
Definition index {S A : Type} (xs : list A) (k : nat) : Comp S A :=
  deref (xs !! k).

(** A [for _, x := range xs] loop whose body updates [acc]. *)
Fixpoint for_range {S A B : Type} (body : B -> A -> Comp S B)
  (acc : B) (xs : list A) : Comp S B :=
  match xs with
  | [] => ret acc
  | x :: xs' => let* acc' := body acc x in for_range body acc' xs'
  end.

(** Running [f] on each element in turn and collecting the results. *)
Fixpoint mapM {S A B : Type} (f : A -> Comp S B) (xs : list A)
  : Comp S (list B) :=
  match xs with
  | [] => ret []
  | x :: xs' => let* y := f x in let* ys := mapM f xs' in ret (y :: ys)
  end.

(** [aws.StringValue(p)]: the empty string for nil, the pointee otherwise.
    (An address outside the store cannot arise in Go; it reads as empty.) *)
Definition aws_StringValue (σ : store) (p : strptr) : string :=
  match p with
  | None => EmptyString
  | Some a => default EmptyString (σ !! a)
  end.

(** Reading through [aws.StringValue] inside a computation. *)
Definition StringValue (p : strptr) : Comp store string :=
  fun σ => Done (aws_StringValue σ p) σ.

(** [aws.String(v)]: a pointer to a new cell holding [v]. *)
Definition aws_String (v : string) : Comp store strptr :=
  fun σ => Done (Some (length σ)) (σ ++ [v]).

(** [aws.Bool(v)] and [aws.Int64Value(p)]. *)
Definition aws_Bool (v : bool) : option bool := Some v.

Definition aws_Int64Value (p : option Z) : Z := default 0 p.

(** [aws.StringValueSlice(src)]. *)
Definition aws_StringValueSlice (σ : store) (src : list strptr)
  : list string :=
  map (aws_StringValue σ) src.

(** ** The provider's response structs (package [ec2]), the fields used *)

Module ec2.

Module IamInstanceProfile.
Record t : Type := mk { Arn : strptr }.
End IamInstanceProfile.

Module Monitoring.
Record t : Type := mk { State : strptr }.
End Monitoring.

Module InstanceState.
Record t : Type := mk { Code : option Z }.
End InstanceState.

Module GroupIdentifier.
Record t : Type := mk { GroupName : strptr }.
End GroupIdentifier.

Module Tag.
Record t : Type := mk { Key : strptr; Value : strptr }.
End Tag.

Module Instance.
Record t : Type := mk {
  EbsOptimized : option bool;
  IamInstanceProfile : option IamInstanceProfile.t;
  ImageId : strptr;
  InstanceId : strptr;
  InstanceType : strptr;
  KeyName : strptr;
  Monitoring : option Monitoring.t;
  SecurityGroups : option (list (option GroupIdentifier.t));
  SourceDestCheck : option bool;
  State : option InstanceState.t;
  SubnetId : strptr;
  VpcId : strptr;
  Tags : option (list (option Tag.t))
}.
End Instance.

Module Reservation.
Record t : Type := mk { Instances : option (list (option Instance.t)) }.
End Reservation.

Module DescribeInstancesInput.
Record t : Type := mk { NextToken : strptr }.
End DescribeInstancesInput.

Module DescribeInstancesOutput.
Record t : Type := mk {
  Reservations : option (list (option Reservation.t));
  NextToken : strptr
}.
End DescribeInstancesOutput.

Module VpcIpv6CidrBlockAssociation.
Record t : Type := mk { }.
End VpcIpv6CidrBlockAssociation.

Module Vpc.
Record t : Type := mk {
  CidrBlock : strptr;
  InstanceTenancy : strptr;
  Ipv6CidrBlockAssociationSet : list (option VpcIpv6CidrBlockAssociation.t);
  Tags : option (list (option Tag.t));
  VpcId : strptr
}.
End Vpc.

Module DescribeVpcsInput.
Record t : Type := mk { }.
End DescribeVpcsInput.

Module DescribeVpcsOutput.
Record t : Type := mk { Vpcs : list (option Vpc.t) }.
End DescribeVpcsOutput.

Module VpcClassicLink.
Record t : Type := mk { ClassicLinkEnabled : option bool; VpcId : strptr }.
End VpcClassicLink.

Module DescribeVpcClassicLinkInput.
Record t : Type := mk { }.
End DescribeVpcClassicLinkInput.

Module DescribeVpcClassicLinkOutput.
Record t : Type := mk { Vpcs : list (option VpcClassicLink.t) }.
End DescribeVpcClassicLinkOutput.

Module ClassicLinkDnsSupport.
Record t : Type := mk {
  ClassicLinkDnsSupported : option bool;
  VpcId : strptr
}.
End ClassicLinkDnsSupport.

Module DescribeVpcClassicLinkDnsSupportInput.
Record t : Type := mk { }.
End DescribeVpcClassicLinkDnsSupportInput.

Module DescribeVpcClassicLinkDnsSupportOutput.
Record t : Type := mk { Vpcs : list (option ClassicLinkDnsSupport.t) }.
End DescribeVpcClassicLinkDnsSupportOutput.

Module DescribeVpcAttributeInput.
Record t : Type := mk { Attribute : strptr; VpcId : strptr }.

(** [func (s *DescribeVpcAttributeInput) SetAttribute(v string)]:
    [s.Attribute = &v], a pointer to a new cell. *)
Definition SetAttribute (s : t) (v : string) : Comp store t :=
  fun σ => Done (mk (Some (length σ)) (VpcId s)) (σ ++ [v]).
End DescribeVpcAttributeInput.

Module AttributeBooleanValue.
Record t : Type := mk { Value : option bool }.
End AttributeBooleanValue.

Module DescribeVpcAttributeOutput.
Record t : Type := mk {
  EnableDnsHostnames : option AttributeBooleanValue.t;
  EnableDnsSupport : option AttributeBooleanValue.t
}.
End DescribeVpcAttributeOutput.

End ec2.

(** ** [Instance], the shorter version of [ec2.Instance] *)

Module Instance.
Record t : Type := mk {
  EbsOptimized : option bool;
  IamInstanceProfile : strptr;
  ImageID : strptr;
  InstanceID : strptr;
  InstanceType : strptr;
  KeyName : strptr;
  Monitoring : option bool;
  SecurityGroups : option (list strptr);
  SourceDestCheck : option bool;
  SubnetID : strptr;
  VpcID : strptr;
  Tags : option (gmap strptr strptr)
}.

(** [&Instance{}]: every field nil. *)
Definition zero : t :=
  mk None None None None None None None None None None None None.

(** Field assignments [i.F = v]. *)
Definition with_EbsOptimized (v : option bool) (i : t) : t :=
  mk v (IamInstanceProfile i) (ImageID i) (InstanceID i) (InstanceType i)
     (KeyName i) (Monitoring i) (SecurityGroups i) (SourceDestCheck i)
     (SubnetID i) (VpcID i) (Tags i).

Definition with_IamInstanceProfile (v : strptr) (i : t) : t :=
  mk (EbsOptimized i) v (ImageID i) (InstanceID i) (InstanceType i)
     (KeyName i) (Monitoring i) (SecurityGroups i) (SourceDestCheck i)
     (SubnetID i) (VpcID i) (Tags i).

Definition with_ImageID (v : strptr) (i : t) : t :=
  mk (EbsOptimized i) (IamInstanceProfile i) v (InstanceID i)
     (InstanceType i) (KeyName i) (Monitoring i) (SecurityGroups i)
     (SourceDestCheck i) (SubnetID i) (VpcID i) (Tags i).

Definition with_InstanceID (v : strptr) (i : t) : t :=
  mk (EbsOptimized i) (IamInstanceProfile i) (ImageID i) v
     (InstanceType i) (KeyName i) (Monitoring i) (SecurityGroups i)
     (SourceDestCheck i) (SubnetID i) (VpcID i) (Tags i).

Definition with_InstanceType (v : strptr) (i : t) : t :=
  mk (EbsOptimized i) (IamInstanceProfile i) (ImageID i) (InstanceID i) v
     (KeyName i) (Monitoring i) (SecurityGroups i) (SourceDestCheck i)
     (SubnetID i) (VpcID i) (Tags i).

Definition with_KeyName (v : strptr) (i : t) : t :=
  mk (EbsOptimized i) (IamInstanceProfile i) (ImageID i) (InstanceID i)
     (InstanceType i) v (Monitoring i) (SecurityGroups i)
     (SourceDestCheck i) (SubnetID i) (VpcID i) (Tags i).

Definition with_Monitoring (v : option bool) (i : t) : t :=
  mk (EbsOptimized i) (IamInstanceProfile i) (ImageID i) (InstanceID i)
     (InstanceType i) (KeyName i) v (SecurityGroups i)
     (SourceDestCheck i) (SubnetID i) (VpcID i) (Tags i).

Definition with_SecurityGroups (v : option (list strptr)) (i : t) : t :=
  mk (EbsOptimized i) (IamInstanceProfile i) (ImageID i) (InstanceID i)
     (InstanceType i) (KeyName i) (Monitoring i) v
     (SourceDestCheck i) (SubnetID i) (VpcID i) (Tags i).

Definition with_SourceDestCheck (v : option bool) (i : t) : t :=
  mk (EbsOptimized i) (IamInstanceProfile i) (ImageID i) (InstanceID i)
     (InstanceType i) (KeyName i) (Monitoring i) (SecurityGroups i)
     v (SubnetID i) (VpcID i) (Tags i).

Definition with_SubnetID (v : strptr) (i : t) : t :=
  mk (EbsOptimized i) (IamInstanceProfile i) (ImageID i) (InstanceID i)
     (InstanceType i) (KeyName i) (Monitoring i) (SecurityGroups i)
     (SourceDestCheck i) v (VpcID i) (Tags i).

Definition with_VpcID (v : strptr) (i : t) : t :=
  mk (EbsOptimized i) (IamInstanceProfile i) (ImageID i) (InstanceID i)
     (InstanceType i) (KeyName i) (Monitoring i) (SecurityGroups i)
     (SourceDestCheck i) (SubnetID i) v (Tags i).

Definition with_Tags (v : option (gmap strptr strptr)) (i : t) : t :=
  mk (EbsOptimized i) (IamInstanceProfile i) (ImageID i) (InstanceID i)
     (InstanceType i) (KeyName i) (Monitoring i) (SecurityGroups i)
     (SourceDestCheck i) (SubnetID i) (VpcID i) v.
End Instance.

(** A group of [Instance]. *)
Definition Instances : Type := list Instance.t.

(** [append(s, x)] on a slice that may be nil. *)
Definition slice_append {A : Type} (s : option (list A)) (x : A)
  : option (list A) :=
  Some (default [] s ++ [x]).

(** [m[k] = v]: assignment to an entry of a nil map panics. *)
Definition map_assign {S : Type} (m : option (gmap strptr strptr))
  (k v : strptr) : Comp S (option (gmap strptr strptr)) :=
  match m with
  | Some m' => ret (Some (<[k := v]> m'))
  | None => panic
  end.

(** The body of [for _, sg := range src.SecurityGroups]. *)
Definition SecurityGroups_body (i : Instance.t)
  (sg : option ec2.GroupIdentifier.t) : Comp store Instance.t :=
  let* g := deref sg in
  ret (Instance.with_SecurityGroups
         (slice_append (Instance.SecurityGroups i)
                       (ec2.GroupIdentifier.GroupName g)) i).

(** The body of [for _, t := range src.Tags]. *)
Definition Tags_body (i : Instance.t) (t : option ec2.Tag.t)
  : Comp store Instance.t :=
  let* tag := deref t in
  let* m := map_assign (Instance.Tags i) (ec2.Tag.Key tag)
                       (ec2.Tag.Value tag) in
  ret (Instance.with_Tags m i).

(** [func (i *Instance) set(src *ec2.Instance) error].  The receiver is
    passed in and handed back with the returned error. *)
Definition Instance_set (i : Instance.t) (src : option ec2.Instance.t)
  : Comp store (Instance.t * error) :=
  let* s := deref src in
  let i := Instance.with_EbsOptimized (ec2.Instance.EbsOptimized s) i in
  let* i :=
    match ec2.Instance.IamInstanceProfile s with
    | Some prof =>
        match ec2.IamInstanceProfile.Arn prof with
        | Some _ =>
            let* arn := StringValue (ec2.IamInstanceProfile.Arn prof) in
            let tmp := strings_Split arn slash in
            let* name := index tmp (length tmp - 1) in
            let* p := aws_String name in
            ret (Instance.with_IamInstanceProfile p i)
        | None => ret i
        end
    | None => ret i
    end in
  let i := Instance.with_ImageID (ec2.Instance.ImageId s) i in
  let i := Instance.with_InstanceID (ec2.Instance.InstanceId s) i in
  let i := Instance.with_InstanceType (ec2.Instance.InstanceType s) i in
  let i := Instance.with_KeyName (ec2.Instance.KeyName s) i in
  let* mon := deref (ec2.Instance.Monitoring s) in
  let* state := StringValue (ec2.Monitoring.State mon) in
  let i :=
    if Z.eqb (strings_Compare state "disabled") 0
    then Instance.with_Monitoring (aws_Bool false) i
    else Instance.with_Monitoring (aws_Bool true) i in
  let* i :=
    match ec2.Instance.SecurityGroups s with
    | Some sgs => for_range SecurityGroups_body i sgs
    | None => ret i
    end in
  let i := Instance.with_SourceDestCheck (ec2.Instance.SourceDestCheck s) i in
  let i := Instance.with_SubnetID (ec2.Instance.SubnetId s) i in
  let i := Instance.with_VpcID (ec2.Instance.VpcId s) i in
  let* i :=
    match ec2.Instance.Tags s with
    | Some ts => for_range Tags_body (Instance.with_Tags (Some ∅) i) ts
    | None => ret i
    end in
  ret (i, None).

(** The body of the loop of [Instances.set]: a terminated instance (state
    code 48) is skipped, any other is mapped into a new [Instance] and
    appended.  The error [Instance.set] returns is dropped, as in the
    source. *)
Definition Instances_set_body (i : Instances) (v : option ec2.Instance.t)
  : Comp store Instances :=
  let* inst := deref v in
  let* st := deref (ec2.Instance.State inst) in
  if Z.eqb (aws_Int64Value (ec2.InstanceState.Code st)) 48 then ret i
  else
    let* '(tmp, _) := Instance_set Instance.zero v in
    ret (i ++ [tmp]).

(** [func (i *Instances) set(src []*ec2.Instance)]. *)
Definition Instances_set (i : Instances)
  (src : option (list (option ec2.Instance.t))) : Comp store Instances :=
  match src with
  | None => ret i
  | Some vs => for_range Instances_set_body i vs
  end.

(** ** The instance template of [Instances.WriteHCL]

    The template's literal text is kept byte for byte, after the trimming
    that the [{{-] markers perform on the text before them.  Its output is
    built one piece at a time: every element of [Instance_lines] starts
    with the newline and indentation that precede it in the template, and
    the text is the pieces put end to end. *)

Definition nl : string := String "010"%char EmptyString.
Definition tab : string := String "009"%char EmptyString.

(** How the template engine prints a [*string] or [*bool] value: the
    pointee, or [<nil>] for a nil pointer. *)
Definition print_strptr (σ : store) (p : strptr) : string :=
  match p with
  | None => "<nil>"
  | Some _ => aws_StringValue σ p
  end.

Definition print_boolptr (p : option bool) : string :=
  match p with
  | None => "<nil>"
  | Some true => "true"
  | Some false => "false"
  end.

(** The truth of a pipeline in [{{ if }}]: a pointer is true when it is
    not nil, a slice or a map when it is not empty. *)
Definition truthy_ptr {A : Type} (p : option A) : bool :=
  match p with
  | Some _ => true
  | None => false
  end.

Definition truthy_slice {A : Type} (s : option (list A)) : bool :=
  match s with
  | Some (_ :: _) => true
  | _ => false
  end.

Definition truthy_map (m : option (gmap strptr strptr)) : bool :=
  match m with
  | Some m' => negb (bool_decide (m' = ∅))
  | None => false
  end.

(** Pointer keys are visited in the order of their addresses, nil first. *)
Definition key_le (x y : strptr * strptr) : Prop :=
  match x.1, y.1 with
  | None, _ => True
  | Some _, None => False
  | Some a, Some b => (a <= b)%nat
  end.

#[global] Instance key_le_dec (x y : strptr * strptr) : Decision (key_le x y).
Proof.
  unfold key_le. destruct (x.1) as [a|], (y.1) as [b|]; [|right; tauto|left; exact I..].
  apply _.
Defined.

Definition range_map (m : gmap strptr strptr) : list (strptr * strptr) :=
  merge_sort key_le (map_to_list m).

(** A line written when [cond] holds ([{{- if }} ... {{- end }}]). *)
Definition when (cond : bool) (line : string) : list string :=
  if cond then [line] else [].

(** The lines of the [tags] block. *)
Definition Tags_lines (σ : store) (m : option (gmap strptr strptr))
  : list string :=
  if truthy_map m then
    [nl +:+ "    tags {"; nl +:+ "      "]
    ++ map (fun kv => nl +:+ "        " +:+ dquote +:+ print_strptr σ kv.1
                      +:+ dquote +:+ " = " +:+ dquote
                      +:+ print_strptr σ kv.2 +:+ dquote)
           (range_map (default ∅ m))
    ++ [nl +:+ "    }"; nl +:+ "    "]
  else [].

(** The output of the body of [{{ range . }}] for one instance. *)
Definition Instance_lines (σ : store) (i : Instance.t) : list string :=
  [ nl +:+ tab +:+ "resource " +:+ dquote +:+ "aws_instance" +:+ dquote
       +:+ " " +:+ dquote +:+ print_strptr σ (Instance.InstanceID i)
       +:+ "_instance" +:+ dquote +:+ " {";
    nl +:+ tab +:+ tab +:+ "ami = " +:+ dquote
       +:+ print_strptr σ (Instance.ImageID i) +:+ dquote;
    nl +:+ tab +:+ tab +:+ "instance_type = " +:+ dquote
       +:+ print_strptr σ (Instance.InstanceType i) +:+ dquote ]
  ++ when (truthy_ptr (Instance.EbsOptimized i))
       (nl +:+ tab +:+ tab +:+ "ebs_optimized = "
           +:+ print_boolptr (Instance.EbsOptimized i))
  ++ when (truthy_ptr (Instance.IamInstanceProfile i))
       (nl +:+ tab +:+ tab +:+ "iam_instance_profile = " +:+ dquote
           +:+ print_strptr σ (Instance.IamInstanceProfile i) +:+ dquote)
  ++ when (truthy_ptr (Instance.KeyName i))
       (nl +:+ tab +:+ tab +:+ "key_name = " +:+ dquote
           +:+ print_strptr σ (Instance.KeyName i) +:+ dquote)
  ++ when (truthy_ptr (Instance.Monitoring i))
       (nl +:+ tab +:+ tab +:+ "monitoring = "
           +:+ print_boolptr (Instance.Monitoring i))
  ++ when (truthy_ptr (Instance.SourceDestCheck i))
       (nl +:+ tab +:+ tab +:+ "source_dest_check = "
           +:+ print_boolptr (Instance.SourceDestCheck i))
  ++ when (truthy_ptr (Instance.SubnetID i))
       (nl +:+ "    subnet_id = " +:+ dquote
           +:+ print_strptr σ (Instance.SubnetID i) +:+ dquote)
  ++ when (truthy_slice (Instance.SecurityGroups i))
       (nl +:+ "    vpc_security_group_ids = ["
           +:+ (joinStringSlice ","
                  (aws_StringValueSlice σ
                     (default [] (Instance.SecurityGroups i)))).2
           +:+ "]")
  ++ [nl +:+ "    "]
  ++ Tags_lines σ (Instance.Tags i)
  ++ [nl +:+ tab +:+ "}"].

(** Executing the whole template on a (non-nil) [*Instances]. *)
Definition Instances_template (σ : store) (insts : Instances) : string :=
  nl +:+ tab +:+ nl +:+ tab +:+ tab
  +:+ String.concat EmptyString (concat (map (Instance_lines σ) insts))
  +:+ nl +:+ tab.

(** White space, as the lines of the template are indented with. *)
Definition is_space (c : ascii) : bool :=
  Ascii.eqb c "010"%char || Ascii.eqb c "009"%char || Ascii.eqb c " "%char
  || Ascii.eqb c "013"%char.

Fixpoint trim_left (s : string) : string :=
  match s with
  | String c s' => if is_space c then trim_left s' else s
  | EmptyString => EmptyString
  end.

(** A string starts a line for attribute (or block) [a] when, after its
    leading white space, it reads [a] followed by a space, as in
    [ami = ...] and [tags {].  It is used on a line of the text, and on a
    piece of template output, which begins with the newline and the
    indentation of the line it opens. *)
Definition line_for (a : string) (line : string) : bool :=
  String.prefix (a +:+ " ") (trim_left line).

(** One of the pieces written by the template opens a line for [a].  This
    reads the pieces, not the text: see [text_has_line] for the text. *)
Definition has_chunk (a : string) (chunks : list string) : bool :=
  existsb (line_for a) chunks.

(** ** Rendering: [renderHCL] and [Instances.WriteHCL]

    The HCL parser and printer belong to a library outside the package;
    [HCLFmt] is taken over an arbitrary parser and printer. *)

Section Render.

Variable hcl_File : Type.
Variable parser_Parse : string -> option hcl_File * error.
Variable printer_Fprint : hcl_File -> string * error.

(** [func HCLFmt(r io.Reader, w io.Writer) error], as the bytes written to
    [w] and the error.  Reading from the in-memory buffer does not fail. *)
Definition HCLFmt (src : string) : Comp store (string * error) :=
  let '(hclFile, err) := parser_Parse src in
  match err with
  | Some _ => ret (EmptyString, err)
  | None => let* f := deref hclFile in ret (printer_Fprint f)
  end.

(** [func (i *Instances) WriteHCL(w io.Writer) error]: the template is a
    constant that parses, so [renderHCL] executes it and formats the
    result. *)
Definition Instances_WriteHCL (insts : Instances)
  : Comp store (string * error) :=
  fun σ => HCLFmt (Instances_template σ insts) σ.

End Render.

(** ** Vocabulary of the statements *)

(** The pointers [Instance.set] dereferences without a check are not nil:
    [src.Monitoring], and every element of [src.SecurityGroups] and of
    [src.Tags]. *)
Definition wf_Instance (s : ec2.Instance.t) : bool :=
  truthy_ptr (ec2.Instance.Monitoring s)
  && forallb truthy_ptr (default [] (ec2.Instance.SecurityGroups s))
  && forallb truthy_ptr (default [] (ec2.Instance.Tags s)).

(** The same for an element of the slice given to [Instances.set], which
    also reads [v.State.Code]. *)
Definition valid_Instance (v : option ec2.Instance.t) : bool :=
  match v with
  | Some s => truthy_ptr (ec2.Instance.State s) && wf_Instance s
  | None => false
  end.

(** The state code of an instance, when [v] and [v.State] are not nil. *)
Definition state_code (v : option ec2.Instance.t) : option Z :=
  match v with
  | Some s =>
      match ec2.Instance.State s with
      | Some st => Some (aws_Int64Value (ec2.InstanceState.Code st))
      | None => None
      end
  | None => None
  end.

(** [v] and [v.State] are not nil. *)
Definition has_state (v : option ec2.Instance.t) : bool :=
  match state_code v with
  | Some _ => true
  | None => false
  end.

(** An instance that is not terminated: its state code is not 48. *)
Definition retained (v : option ec2.Instance.t) : bool :=
  match state_code v with
  | Some c => negb (Z.eqb c 48)
  | None => true
  end.

(** [tmp := &Instance{}; tmp.set(v)], giving [tmp]. *)
Definition new_Instance (v : option ec2.Instance.t) : Comp store Instance.t :=
  let* '(tmp, _) := Instance_set Instance.zero v in ret tmp.

(** [s] contains the byte [c]. *)
Fixpoint contains_byte (c : ascii) (s : string) : bool :=
  match s with
  | EmptyString => false
  | String c' s' => Ascii.eqb c' c || contains_byte c s'
  end.

(** The text the template writes for one instance: its pieces end to end.
    [Instances_template] puts the texts of the instances one after the
    other between fixed white space. *)
Definition Instance_text (σ : store) (i : Instance.t) : string :=
  String.concat EmptyString (Instance_lines σ i).

Definition newline : ascii := "010"%char.

(** The lines of a text: what stands between its newlines. *)
Definition text_lines (text : string) : list string :=
  strings_Split text newline.

(** The text has a line for attribute (or block) [a]. *)
Definition text_has_line (a : string) (text : string) : bool :=
  existsb (line_for a) (text_lines text).

(** A string without a newline. *)
Definition single_line (s : string) : bool :=
  negb (contains_byte newline s).

(** The strings of an instance that the template prints: the ids, the
    type, the profile and key names, the subnet, the security group names
    and the keys and values of the tags. *)
Definition printed_values (σ : store) (i : Instance.t) : list string :=
  [ print_strptr σ (Instance.InstanceID i);
    print_strptr σ (Instance.ImageID i);
    print_strptr σ (Instance.InstanceType i);
    print_strptr σ (Instance.IamInstanceProfile i);
    print_strptr σ (Instance.KeyName i);
    print_strptr σ (Instance.SubnetID i) ]
  ++ aws_StringValueSlice σ (default [] (Instance.SecurityGroups i))
  ++ flat_map (fun kv => [print_strptr σ kv.1; print_strptr σ kv.2])
              (range_map (default ∅ (Instance.Tags i))).

(** What follows the first byte of a piece. *)
Definition body_of (chunk : string) : string :=
  match chunk with
  | String _ body => body
  | EmptyString => EmptyString
  end.

(** A piece of template output that begins with a newline. *)
Definition opens_line (chunk : string) : bool :=
  match chunk with
  | String c _ => Ascii.eqb c newline
  | EmptyString => false
  end.

(** A piece of template output that is one whole line: a newline followed
    by a string without a newline. *)
Definition whole_line (chunk : string) : bool :=
  match chunk with
  | String c body => Ascii.eqb c newline && single_line body
  | EmptyString => false
  end.

(** The profile name [Instance.set] stores, when the source has an ARN. *)
Definition profile_name (σ : store) (s : ec2.Instance.t) : option string :=
  match ec2.Instance.IamInstanceProfile s with
  | Some prof =>
      match ec2.IamInstanceProfile.Arn prof with
      | Some a =>
          Some (default EmptyString
                  (last (strings_Split (aws_StringValue σ (Some a)) slash)))
      | None => None
      end
  | None => None
  end.

(** The group names appended by the loop over [src.SecurityGroups]. *)
Definition group_names (old : option (list strptr))
  (sgs : option (list (option ec2.GroupIdentifier.t)))
  : option (list strptr) :=
  match sgs with
  | Some ((_ :: _) as l) =>
      Some (default [] old
            ++ map (fun g => g ≫= ec2.GroupIdentifier.GroupName) l)
  | _ => old
  end.

(** The map built by the loop over [src.Tags]. *)
Definition tag_map (ts : list (option ec2.Tag.t)) (m : gmap strptr strptr)
  : gmap strptr strptr :=
  foldl (fun m t =>
           match t with
           | Some t' => <[ec2.Tag.Key t' := ec2.Tag.Value t']> m
           | None => m
           end) m ts.

(** The store [Instance.set] leaves when it completes: the profile name,
    if any, is in a new cell. *)
Definition store_after (σ : store) (s : ec2.Instance.t) : store :=
  match profile_name σ s with
  | Some name => σ ++ [name]
  | None => σ
  end.

(** The struct [Instance.set] leaves when it completes; the monitoring state
    is read after the profile name has been stored. *)
Definition Instance_after (σ : store) (i : Instance.t) (s : ec2.Instance.t)
  : Instance.t :=
  Instance.mk
    (ec2.Instance.EbsOptimized s)
    (match profile_name σ s with
     | Some _ => Some (length σ)
     | None => Instance.IamInstanceProfile i
     end)
    (ec2.Instance.ImageId s)
    (ec2.Instance.InstanceId s)
    (ec2.Instance.InstanceType s)
    (ec2.Instance.KeyName s)
    (Some (negb (String.eqb
                   (aws_StringValue (store_after σ s)
                      (ec2.Instance.Monitoring s ≫= ec2.Monitoring.State))
                   "disabled")))
    (group_names (Instance.SecurityGroups i) (ec2.Instance.SecurityGroups s))
    (ec2.Instance.SourceDestCheck s)
    (ec2.Instance.SubnetId s)
    (ec2.Instance.VpcId s)
    (match ec2.Instance.Tags s with
     | Some ts => Some (tag_map ts ∅)
     | None => Instance.Tags i
     end).

(** The fields of the source instance that [Instance.set] maps. *)
Inductive field : Type :=
| F_EbsOptimized | F_IamInstanceProfile | F_ImageId | F_InstanceId
| F_InstanceType | F_KeyName | F_Monitoring | F_SecurityGroups
| F_SourceDestCheck | F_SubnetId | F_VpcId | F_Tags.

(** The field is nil in the source instance. *)
Definition src_unset (f : field) (s : ec2.Instance.t) : bool :=
  match f with
  | F_EbsOptimized => negb (truthy_ptr (ec2.Instance.EbsOptimized s))
  | F_IamInstanceProfile =>
      negb (truthy_ptr (ec2.Instance.IamInstanceProfile s))
  | F_ImageId => negb (truthy_ptr (ec2.Instance.ImageId s))
  | F_InstanceId => negb (truthy_ptr (ec2.Instance.InstanceId s))
  | F_InstanceType => negb (truthy_ptr (ec2.Instance.InstanceType s))
  | F_KeyName => negb (truthy_ptr (ec2.Instance.KeyName s))
  | F_Monitoring => negb (truthy_ptr (ec2.Instance.Monitoring s))
  | F_SecurityGroups => negb (truthy_ptr (ec2.Instance.SecurityGroups s))
  | F_SourceDestCheck => negb (truthy_ptr (ec2.Instance.SourceDestCheck s))
  | F_SubnetId => negb (truthy_ptr (ec2.Instance.SubnetId s))
  | F_VpcId => negb (truthy_ptr (ec2.Instance.VpcId s))
  | F_Tags => negb (truthy_ptr (ec2.Instance.Tags s))
  end.

(** The corresponding field of the mapped struct is nil. *)
Definition dst_unset (f : field) (i : Instance.t) : bool :=
  match f with
  | F_EbsOptimized => negb (truthy_ptr (Instance.EbsOptimized i))
  | F_IamInstanceProfile => negb (truthy_ptr (Instance.IamInstanceProfile i))
  | F_ImageId => negb (truthy_ptr (Instance.ImageID i))
  | F_InstanceId => negb (truthy_ptr (Instance.InstanceID i))
  | F_InstanceType => negb (truthy_ptr (Instance.InstanceType i))
  | F_KeyName => negb (truthy_ptr (Instance.KeyName i))
  | F_Monitoring => negb (truthy_ptr (Instance.Monitoring i))
  | F_SecurityGroups => negb (truthy_ptr (Instance.SecurityGroups i))
  | F_SourceDestCheck => negb (truthy_ptr (Instance.SourceDestCheck i))
  | F_SubnetId => negb (truthy_ptr (Instance.SubnetID i))
  | F_VpcId => negb (truthy_ptr (Instance.VpcID i))
  | F_Tags => negb (truthy_ptr (Instance.Tags i))
  end.

(** The attribute (or block) of the template that prints the field; the
    instance id only names the resource and the VPC id is not printed. *)
Definition attribute (f : field) : option string :=
  match f with
  | F_EbsOptimized => Some "ebs_optimized"
  | F_IamInstanceProfile => Some "iam_instance_profile"
  | F_ImageId => Some "ami"
  | F_InstanceId => None
  | F_InstanceType => Some "instance_type"
  | F_KeyName => Some "key_name"
  | F_Monitoring => Some "monitoring"
  | F_SecurityGroups => Some "vpc_security_group_ids"
  | F_SourceDestCheck => Some "source_dest_check"
  | F_SubnetId => Some "subnet_id"
  | F_VpcId => None
  | F_Tags => Some "tags"
  end.

(** The fields that can come out unset and that the template prints under
    an [if], if at all: all but the image id and the instance type, whose
    lines the template always writes, and the monitoring flag, which
    [Instance.set] always sets. *)
Definition guarded (f : field) : bool :=
  match f with
  | F_ImageId | F_InstanceType | F_Monitoring => false
  | _ => true
  end.

(** The instances of one page, reservation by reservation. *)
Definition page_instances (o : ec2.DescribeInstancesOutput.t)
  : list (option ec2.Instance.t) :=
  flat_map (fun r => default [] (r ≫= ec2.Reservation.Instances))
           (default [] (ec2.DescribeInstancesOutput.Reservations o)).

(** A page whose reservations are not nil and hold valid instances. *)
Definition valid_page (o : ec2.DescribeInstancesOutput.t) : bool :=
  forallb (fun r => truthy_ptr r) 
          (default [] (ec2.DescribeInstancesOutput.Reservations o))
  && forallb valid_Instance (page_instances o).

(** What [GetInstances] prints for a list of pages: the continuation
    token of each page that has one, read in the store [σ], on a line of
    its own. *)
Definition token_lines (σ : store)
  (pages : list ec2.DescribeInstancesOutput.t) : list string :=
  flat_map
    (fun o =>
       match ec2.DescribeInstancesOutput.NextToken o with
       | Some _ =>
           [aws_StringValue σ (ec2.DescribeInstancesOutput.NextToken o)
            +:+ nl]
       | None => []
       end) pages.

(** The state an outcome carries. *)
Definition final {S A : Type} (o : outcome S A) : S :=
  match o with
  | Done _ s => s
  | Panic s => s
  | Exhausted s => s
  end.

(** ** [VPC]

    The type [Tags] of the field [VPC.Tags] and its method [setTags] are
    declared in a file of the package that is not part of this
    development; the struct is parametric in that type. *)

Module VPC.
Record t (Tags : Type) : Type := mk {
  CIDRBlock : strptr;
  InstanceTenancy : strptr;
  Tags : option Tags;
  VPCId : strptr;
  AssignGeneratedIPv6CIDRBlock : option bool;
  EnableDnsHostnames : option bool;
  EnableDnsSupport : option bool;
  EnableClassicLink : option bool;
  EnableClassicLinkDnsSupport : option bool
}.

Arguments mk {Tags}.
Arguments CIDRBlock {Tags}.
Arguments InstanceTenancy {Tags}.
Arguments Tags {Tags}.
Arguments VPCId {Tags}.
Arguments AssignGeneratedIPv6CIDRBlock {Tags}.
Arguments EnableDnsHostnames {Tags}.
Arguments EnableDnsSupport {Tags}.
Arguments EnableClassicLink {Tags}.
Arguments EnableClassicLinkDnsSupport {Tags}.

Definition with_Tags {T : Type} (v : option T) (x : t T) : t T :=
  mk (CIDRBlock x) (InstanceTenancy x) v (VPCId x)
     (AssignGeneratedIPv6CIDRBlock x) (EnableDnsHostnames x)
     (EnableDnsSupport x) (EnableClassicLink x)
     (EnableClassicLinkDnsSupport x).

Definition with_AssignGeneratedIPv6CIDRBlock {T : Type} (v : option bool)
  (x : t T) : t T :=
  mk (CIDRBlock x) (InstanceTenancy x) (Tags x) (VPCId x) v
     (EnableDnsHostnames x) (EnableDnsSupport x) (EnableClassicLink x)
     (EnableClassicLinkDnsSupport x).

Definition with_EnableDnsHostnames {T : Type} (v : option bool) (x : t T)
  : t T :=
  mk (CIDRBlock x) (InstanceTenancy x) (Tags x) (VPCId x)
     (AssignGeneratedIPv6CIDRBlock x) v (EnableDnsSupport x)
     (EnableClassicLink x) (EnableClassicLinkDnsSupport x).

Definition with_EnableDnsSupport {T : Type} (v : option bool) (x : t T)
  : t T :=
  mk (CIDRBlock x) (InstanceTenancy x) (Tags x) (VPCId x)
     (AssignGeneratedIPv6CIDRBlock x) (EnableDnsHostnames x) v
     (EnableClassicLink x) (EnableClassicLinkDnsSupport x).

Definition with_EnableClassicLink {T : Type} (v : option bool) (x : t T)
  : t T :=
  mk (CIDRBlock x) (InstanceTenancy x) (Tags x) (VPCId x)
     (AssignGeneratedIPv6CIDRBlock x) (EnableDnsHostnames x)
     (EnableDnsSupport x) v (EnableClassicLinkDnsSupport x).

Definition with_EnableClassicLinkDnsSupport {T : Type} (v : option bool)
  (x : t T) : t T :=
  mk (CIDRBlock x) (InstanceTenancy x) (Tags x) (VPCId x)
     (AssignGeneratedIPv6CIDRBlock x) (EnableDnsHostnames x)
     (EnableDnsSupport x) (EnableClassicLink x) v.
End VPC.

(** What [GetVPCs] takes over from a described VPC: the three string
    pointers, and the IPv6 flag, which is true when the VPC has an IPv6
    block association and nil otherwise. *)
Definition described_by {T : Type} (v : ec2.Vpc.t) (vpc : VPC.t T) : Prop :=
  VPC.VPCId vpc = ec2.Vpc.VpcId v
  /\ VPC.CIDRBlock vpc = ec2.Vpc.CidrBlock v
  /\ VPC.InstanceTenancy vpc = ec2.Vpc.InstanceTenancy v
  /\ VPC.AssignGeneratedIPv6CIDRBlock vpc
     = match ec2.Vpc.Ipv6CidrBlockAssociationSet v with
       | [] => None
       | _ :: _ => Some true
       end.

(** ** The fetch loops, over an arbitrary provider

    The provider API is outside the package.  Its client and the remote
    side are a state of type [conn]; each operation maps a request and
    that state to the pair [(output, err)] the SDK returns and the next
    state.  The strings that responses point to are cells of the store. *)

Section Fetch.

Variable conn : Type.

Variable DescribeInstances :
  ec2.DescribeInstancesInput.t -> conn ->
  option ec2.DescribeInstancesOutput.t * error * conn.

Variable DescribeVpcs :
  ec2.DescribeVpcsInput.t -> conn ->
  option ec2.DescribeVpcsOutput.t * error * conn.

Variable DescribeVpcClassicLink :
  ec2.DescribeVpcClassicLinkInput.t -> conn ->
  option ec2.DescribeVpcClassicLinkOutput.t * error * conn.

Variable DescribeVpcClassicLinkDnsSupport :
  ec2.DescribeVpcClassicLinkDnsSupportInput.t -> conn ->
  option ec2.DescribeVpcClassicLinkDnsSupportOutput.t * error * conn.

Variable DescribeVpcAttribute :
  ec2.DescribeVpcAttributeInput.t -> conn ->
  option ec2.DescribeVpcAttributeOutput.t * error * conn.

(** The package's [Tags] type, the value of [&Tags{}] and the method
    [setTags], none of which is in the files modelled here. *)
Variable Tags : Type.
Variable Tags_zero : Tags.
Variable setTags : Tags -> option (list (option ec2.Tag.t)) -> Comp store Tags.

(** What a fetch runs in: the string cells, what was printed on standard
    output, the provider, and a record of the error every API call made so
    far has returned (oldest first), kept to state what a fetch does when a
    call fails. *)
Record world : Type := mkWorld {
  strs : store;
  stdout : list string;
  remote : conn;
  history : list error
}.

(** A computation on the string cells, run inside a fetch. *)
Definition on_store {A : Type} (m : Comp store A) : Comp world A :=
  fun w =>
    match m (strs w) with
    | Done a σ => Done a (mkWorld σ (stdout w) (remote w) (history w))
    | Panic σ => Panic (mkWorld σ (stdout w) (remote w) (history w))
    | Exhausted σ => Exhausted (mkWorld σ (stdout w) (remote w) (history w))
    end.

(** [fmt.Println(s)]. *)
Definition Println (s : string) : Comp world unit :=
  fun w =>
    Done tt (mkWorld (strs w) (stdout w ++ [s +:+ nl]) (remote w)
                     (history w)).

(** One API call. *)
Definition call {I O : Type} (op : I -> conn -> option O * error * conn)
  (input : I) : Comp world (option O * error) :=
  fun w =>
    let '(out, err, c) := op input (remote w) in
    Done (out, err) (mkWorld (strs w) (stdout w) c (history w ++ [err])).

(** The bound on the iterations of a loop is used up. *)
Definition exhausted {A : Type} : Comp world A := fun w => Exhausted w.

(** The body of [for _, rsv := range out.Reservations]. *)
Definition Reservations_body (instances : Instances)
  (rsv : option ec2.Reservation.t) : Comp store Instances :=
  let* r := deref rsv in
  Instances_set instances (ec2.Reservation.Instances r).

(** The [for { ... }] loop of [GetInstances], run for at most [fuel]
    iterations; [opt] and [instances] are the loop's variables. *)
Fixpoint GetInstances_loop (fuel : nat) (opt : ec2.DescribeInstancesInput.t)
  (instances : Instances) : Comp world (option Instances * error) :=
  match fuel with
  | O => exhausted
  | S fuel' =>
      let* '(out, err) := call DescribeInstances opt in
      match err with
      | Some _ => ret (None, err)
      | None =>
          let* o := deref out in
          let* instances :=
            on_store
              (for_range Reservations_body instances
                 (default [] (ec2.DescribeInstancesOutput.Reservations o))) in
          match ec2.DescribeInstancesOutput.NextToken o with
          | Some _ =>
              let opt :=
                ec2.DescribeInstancesInput.mk
                  (ec2.DescribeInstancesOutput.NextToken o) in
              let* token :=
                on_store
                  (StringValue (ec2.DescribeInstancesInput.NextToken opt)) in
              let* _ := Println token in
              GetInstances_loop fuel' opt instances
          | None => ret (Some instances, None)
          end
      end
  end.

(** [func (c *AWSClient) GetInstances()], returning a [*Instances] and an
    [error]. *)
Definition GetInstances (fuel : nat)
  : Comp world (option Instances * error) :=
  GetInstances_loop fuel (ec2.DescribeInstancesInput.mk None) [].

(** The loop over [classicLink.Vpcs] in [setVPCAttribute], which stops at
    the first entry for this VPC. *)
Fixpoint classicLink_scan (vpc : VPC.t Tags)
  (xs : list (option ec2.VpcClassicLink.t)) : Comp store (VPC.t Tags) :=
  match xs with
  | [] => ret vpc
  | x :: xs' =>
      let* e := deref x in
      let* a := StringValue (ec2.VpcClassicLink.VpcId e) in
      let* b := StringValue (VPC.VPCId vpc) in
      if String.eqb a b
      then ret (VPC.with_EnableClassicLink
                  (ec2.VpcClassicLink.ClassicLinkEnabled e) vpc)
      else classicLink_scan vpc xs'
  end.

(** The loop over [classicLinkDnsSupport.Vpcs]. *)
Fixpoint classicLinkDnsSupport_scan (vpc : VPC.t Tags)
  (xs : list (option ec2.ClassicLinkDnsSupport.t))
  : Comp store (VPC.t Tags) :=
  match xs with
  | [] => ret vpc
  | x :: xs' =>
      let* v := deref x in
      let* a := StringValue (ec2.ClassicLinkDnsSupport.VpcId v) in
      let* b := StringValue (VPC.VPCId vpc) in
      if String.eqb a b
      then ret (VPC.with_EnableClassicLinkDnsSupport
                  (ec2.ClassicLinkDnsSupport.ClassicLinkDnsSupported v) vpc)
      else classicLinkDnsSupport_scan vpc xs'
  end.

(** [func (c *AWSClient) setVPCAttribute(vpc, classicLink,
    classicLinkDnsSupport) error]; the struct [vpc] points to is handed
    back with the error. *)
Definition setVPCAttribute (vpc : VPC.t Tags)
  (classicLink : option ec2.DescribeVpcClassicLinkOutput.t)
  (classicLinkDnsSupport : option ec2.DescribeVpcClassicLinkDnsSupportOutput.t)
  : Comp world (VPC.t Tags * error) :=
  let opt := ec2.DescribeVpcAttributeInput.mk None (VPC.VPCId vpc) in
  let* opt :=
    on_store (ec2.DescribeVpcAttributeInput.SetAttribute opt
                "enableDnsHostnames") in
  let* '(output, err) := call DescribeVpcAttribute opt in
  match err with
  | Some _ => ret (vpc, err)
  | None =>
      let* o := deref output in
      let* h := deref (ec2.DescribeVpcAttributeOutput.EnableDnsHostnames o) in
      let vpc :=
        VPC.with_EnableDnsHostnames (ec2.AttributeBooleanValue.Value h) vpc in
      let* opt :=
        on_store (ec2.DescribeVpcAttributeInput.SetAttribute opt
                    "enableDnsSupport") in
      let* '(output, err) := call DescribeVpcAttribute opt in
      match err with
      | Some _ => ret (vpc, err)
      | None =>
          let* o := deref output in
          let* d := deref (ec2.DescribeVpcAttributeOutput.EnableDnsSupport o) in
          let vpc :=
            VPC.with_EnableDnsSupport (ec2.AttributeBooleanValue.Value d)
              vpc in
          let* cl := deref classicLink in
          let* vpc :=
            on_store
              (classicLink_scan vpc
                 (ec2.DescribeVpcClassicLinkOutput.Vpcs cl)) in
          let* cd := deref classicLinkDnsSupport in
          let* vpc :=
            on_store
              (classicLinkDnsSupport_scan vpc
                 (ec2.DescribeVpcClassicLinkDnsSupportOutput.Vpcs cd)) in
          ret (vpc, None)
      end
  end.

Definition VPCs : Type := list (VPC.t Tags).

(** The loop [for _, v := range basicInfo.Vpcs] of [GetVPCs], which
    returns from the function when [setVPCAttribute] fails. *)
Fixpoint GetVPCs_loop
  (classicLink : option ec2.DescribeVpcClassicLinkOutput.t)
  (classicLinkDnsSupport : option ec2.DescribeVpcClassicLinkDnsSupportOutput.t)
  (res : VPCs) (vs : list (option ec2.Vpc.t))
  : Comp world (option VPCs * error) :=
  match vs with
  | [] => ret (Some res, None)
  | p :: vs' =>
      let* v := deref p in
      let vpc :=
        VPC.mk (ec2.Vpc.CidrBlock v) (ec2.Vpc.InstanceTenancy v)
               (Some Tags_zero) (ec2.Vpc.VpcId v) None None None None None in
      let* tags := deref (VPC.Tags vpc) in
      let* tags := on_store (setTags tags (ec2.Vpc.Tags v)) in
      let vpc := VPC.with_Tags (Some tags) vpc in
      let vpc :=
        if (0 <? length (ec2.Vpc.Ipv6CidrBlockAssociationSet v))%nat
        then VPC.with_AssignGeneratedIPv6CIDRBlock (aws_Bool true) vpc
        else vpc in
      let* '(vpc, err) :=
        setVPCAttribute vpc classicLink classicLinkDnsSupport in
      match err with
      | Some _ => ret (None, err)
      | None =>
          GetVPCs_loop classicLink classicLinkDnsSupport (res ++ [vpc]) vs'
      end
  end.

(** [func (c *AWSClient) GetVPCs()], returning a [*VPCs] and an [error]. *)
Definition GetVPCs : Comp world (option VPCs * error) :=
  let* '(basicInfo, err) := call DescribeVpcs ec2.DescribeVpcsInput.mk in
  match err with
  | Some _ => ret (None, err)
  | None =>
      let* '(classicLink, err) :=
        call DescribeVpcClassicLink ec2.DescribeVpcClassicLinkInput.mk in
      match err with
      | Some _ => ret (None, err)
      | None =>
          let* '(classicLinkDnsSupport, err) :=
            call DescribeVpcClassicLinkDnsSupport
                 ec2.DescribeVpcClassicLinkDnsSupportInput.mk in
          match err with
          | Some _ => ret (None, err)
          | None =>
              let* b := deref basicInfo in
              GetVPCs_loop classicLink classicLinkDnsSupport []
                (ec2.DescribeVpcsOutput.Vpcs b)
          end
      end
  end.

(** [serves c token pages c']: from the provider state [c], a request with
    continuation token [token] is answered by the first of [pages] without
    error; each page but the last carries the token that the next request
    sends, the last carries none, and [c'] is the provider state after the
    last answer. *)
Inductive serves
  : conn -> strptr -> list ec2.DescribeInstancesOutput.t -> conn -> Prop :=
| serves_last c token o c' :
    DescribeInstances (ec2.DescribeInstancesInput.mk token) c
    = (Some o, None, c') ->
    ec2.DescribeInstancesOutput.NextToken o = None ->
    serves c token [o] c'
| serves_more c token o c' t os c'' :
    DescribeInstances (ec2.DescribeInstancesInput.mk token) c
    = (Some o, None, c') ->
    ec2.DescribeInstancesOutput.NextToken o = Some t ->
    serves c' (Some t) os c'' ->
    serves c token (o :: os) c''.

(** The errors returned by the API calls made while [o] was computed from
    the world [w], oldest first. *)
Definition returned_errors {A : Type} (w : world) (o : outcome world A)
  : list error :=
  drop (length (history w)) (history (final o)).

(** What a computation that returns a result and an error, started with
    history [h], may end in: either every API call it made succeeded and,
    if it returned, it returned the nil error; or every call but the last
    succeeded, the last returned an error [e], and the computation
    returned [e] itself with a result that satisfies [on_error]. *)
Definition error_post {X : Type} (on_error : X -> Prop) (h : list error)
  (o : outcome world (X * error)) : Prop :=
  exists calls,
    history (final o) = h ++ calls
    /\ (Forall (fun e => e = None) calls
        /\ (forall x e w', o = Done (x, e) w' -> e = None)
        \/ exists ok e x w',
            calls = ok ++ [Some e]
            /\ Forall (fun e => e = None) ok
            /\ on_error x
            /\ o = Done (x, Some e) w').

(** A computation that makes no API call. *)
Definition quiet {A : Type} (m : Comp world A) : Prop :=
  forall w, history (final (m w)) = history w.

End Fetch.

Arguments mkWorld {conn}.
Arguments strs {conn}.
Arguments stdout {conn}.
Arguments remote {conn}.
Arguments history {conn}.
Arguments on_store {conn A}.
Arguments Println {conn}.
Arguments call {conn I O}.
Arguments exhausted {conn A}.
Arguments GetInstances_loop {conn}.
Arguments GetInstances {conn}.
Arguments serves {conn}.
Arguments returned_errors {conn A}.
Arguments error_post {conn X}.
Arguments quiet {conn A}.
Arguments classicLink_scan {Tags}.
Arguments classicLinkDnsSupport_scan {Tags}.
Arguments setVPCAttribute {conn} DescribeVpcAttribute {Tags}.
Arguments GetVPCs_loop {conn} DescribeVpcAttribute {Tags}.
Arguments GetVPCs {conn} DescribeVpcs DescribeVpcClassicLink
  DescribeVpcClassicLinkDnsSupport DescribeVpcAttribute {Tags}.

(** ** [getZoneId] *)

(** [func getZoneId(src *string) *string].  [strings.Contains] is called
    with the one-byte substring [/], which is [contains_byte]. *)
Definition getZoneId (src : strptr) : Comp store strptr :=
  let* s := StringValue src in
  if contains_byte slash s then
    let* s' := StringValue src in
    let tokens := strings_Split s' slash in
    let* name := index tokens (length tokens - 1) in
    aws_String name
  else ret src.

(** ** Sample data

    A store and source instances used to instantiate the statements
    below. *)

Definition sample_store : store :=
  [ "arn:aws:iam::123456789012:instance-profile/myprofile";
    "disabled"; "ami-0abc"; "i-0123"; "t2.micro";
    "Name"; "web"; "Name"; "db"; "default"; "running" ].

(** A running instance with a profile, monitoring disabled, one security
    group and two tags whose keys are two cells holding the same text. *)
Definition sample_instance : ec2.Instance.t :=
  ec2.Instance.mk
    (Some true)
    (Some (ec2.IamInstanceProfile.mk (Some 0%nat)))
    (Some 2%nat) (Some 3%nat) (Some 4%nat) None
    (Some (ec2.Monitoring.mk (Some 1%nat)))
    (Some [Some (ec2.GroupIdentifier.mk (Some 9%nat))])
    None
    (Some (ec2.InstanceState.mk (Some 16)))
    None None
    (Some [Some (ec2.Tag.mk (Some 5%nat) (Some 6%nat));
           Some (ec2.Tag.mk (Some 7%nat) (Some 8%nat))]).

(** The same instance, terminated. *)
Definition sample_terminated : ec2.Instance.t :=
  ec2.Instance.mk
    (Some true)
    (Some (ec2.IamInstanceProfile.mk (Some 0%nat)))
    (Some 2%nat) (Some 3%nat) (Some 4%nat) None
    (Some (ec2.Monitoring.mk (Some 1%nat)))
    (Some [Some (ec2.GroupIdentifier.mk (Some 9%nat))])
    None
    (Some (ec2.InstanceState.mk (Some 48)))
    None None None.

(** An instance for which the provider sent no monitoring information. *)
Definition sample_no_monitoring : ec2.Instance.t :=
  ec2.Instance.mk
    None None (Some 2%nat) (Some 3%nat) (Some 4%nat) None
    None None None
    (Some (ec2.InstanceState.mk (Some 16)))
    None None None.

(** An instance whose list of security groups holds a nil element. *)
Definition sample_bad_group : ec2.Instance.t :=
  ec2.Instance.mk
    None None (Some 2%nat) (Some 3%nat) (Some 4%nat) None
    (Some (ec2.Monitoring.mk (Some 1%nat)))
    (Some [Some (ec2.GroupIdentifier.mk (Some 9%nat)); None])
    None
    (Some (ec2.InstanceState.mk (Some 16)))
    None None None.

(** An instance with two tags that share one key cell. *)
Definition sample_retagged : ec2.Instance.t :=
  ec2.Instance.mk
    None None (Some 2%nat) (Some 3%nat) (Some 4%nat) None
    (Some (ec2.Monitoring.mk (Some 1%nat))) None None
    (Some (ec2.InstanceState.mk (Some 16)))
    None None
    (Some [Some (ec2.Tag.mk (Some 5%nat) (Some 6%nat));
           Some (ec2.Tag.mk (Some 5%nat) (Some 8%nat))]).

(** A store in which one tag value holds a newline followed by what reads
    like a [key_name] line, and an instance carrying that tag and no key
    name. *)
Definition injecting_store : store :=
  [ "i-0123"; "ami-0abc"; "t2.micro"; "running"; "Name";
    "x" +:+ nl +:+ "key_name = " +:+ dquote +:+ "injected" ].

Definition sample_injected : ec2.Instance.t :=
  ec2.Instance.mk
    None None (Some 1%nat) (Some 0%nat) (Some 2%nat) None
    (Some (ec2.Monitoring.mk (Some 3%nat))) None None
    (Some (ec2.InstanceState.mk (Some 16)))
    None None
    (Some [Some (ec2.Tag.mk (Some 4%nat) (Some 5%nat))]).

(** An instance for which the provider sent no image id. *)
Definition sample_no_image : ec2.Instance.t :=
  ec2.Instance.mk
    None None None (Some 3%nat) (Some 4%nat) None
    (Some (ec2.Monitoring.mk (Some 1%nat))) None None
    (Some (ec2.InstanceState.mk (Some 16)))
    None None None.

(** A scripted provider for [DescribeInstances]: the state is the list of
    the answers still to give. *)
Definition scripted_DescribeInstances (_ : ec2.DescribeInstancesInput.t)
  (c : list (option ec2.DescribeInstancesOutput.t * error))
  : option ec2.DescribeInstancesOutput.t * error
    * list (option ec2.DescribeInstancesOutput.t * error) :=
  match c with
  | answer :: c' => (answer, c')
  | [] => (None, Some (OtherError "connection closed"), [])
  end.

(** Two pages: the first holds a running and a terminated instance and a
    continuation token, the second a running instance and no token. *)
Definition sample_page1 : ec2.DescribeInstancesOutput.t :=
  ec2.DescribeInstancesOutput.mk
    (Some [Some (ec2.Reservation.mk
                   (Some [Some sample_instance; Some sample_terminated]))])
    (Some 9%nat).

Definition sample_page2 : ec2.DescribeInstancesOutput.t :=
  ec2.DescribeInstancesOutput.mk
    (Some [Some (ec2.Reservation.mk (Some [Some sample_no_image]))])
    None.

Definition sample_denied : error_value :=
  AwsError "UnauthorizedOperation" "not authorized".

(** A provider with one VPC that answers the three describe calls and
    refuses [DescribeVpcAttribute]; it has no state. *)
Definition sample_DescribeVpcs (_ : ec2.DescribeVpcsInput.t) (c : unit)
  : option ec2.DescribeVpcsOutput.t * error * unit :=
  (Some (ec2.DescribeVpcsOutput.mk
           [Some (ec2.Vpc.mk (Some 9%nat) (Some 9%nat) [] None
                             (Some 3%nat))]),
   None, c).

Definition sample_DescribeVpcClassicLink
  (_ : ec2.DescribeVpcClassicLinkInput.t) (c : unit)
  : option ec2.DescribeVpcClassicLinkOutput.t * error * unit :=
  (Some (ec2.DescribeVpcClassicLinkOutput.mk []), None, c).

Definition sample_DescribeVpcClassicLinkDnsSupport
  (_ : ec2.DescribeVpcClassicLinkDnsSupportInput.t) (c : unit)
  : option ec2.DescribeVpcClassicLinkDnsSupportOutput.t * error * unit :=
  (Some (ec2.DescribeVpcClassicLinkDnsSupportOutput.mk []), None, c).

Definition sample_DescribeVpcAttribute
  (_ : ec2.DescribeVpcAttributeInput.t) (c : unit)
  : option ec2.DescribeVpcAttributeOutput.t * error * unit :=
  (None, Some sample_denied, c).

(** A provider that answers every request with the same page, which
    carries a continuation token. *)
Definition endless_DescribeInstances (_ : ec2.DescribeInstancesInput.t)
  (c : unit) : option ec2.DescribeInstancesOutput.t * error * unit :=
  (Some sample_page1, None, c).

(** A provider with two VPCs, the second with an IPv6 block association,
    that answers every call. *)
Definition sample_two_Vpcs (_ : ec2.DescribeVpcsInput.t) (c : unit)
  : option ec2.DescribeVpcsOutput.t * error * unit :=
  (Some (ec2.DescribeVpcsOutput.mk
           [Some (ec2.Vpc.mk (Some 9%nat) (Some 9%nat) [] None (Some 3%nat));
            Some (ec2.Vpc.mk (Some 9%nat) None
                    [Some ec2.VpcIpv6CidrBlockAssociation.mk] None
                    (Some 2%nat))]),
   None, c).

Definition sample_attribute_ok (_ : ec2.DescribeVpcAttributeInput.t)
  (c : unit) : option ec2.DescribeVpcAttributeOutput.t * error * unit :=
  (Some (ec2.DescribeVpcAttributeOutput.mk
           (Some (ec2.AttributeBooleanValue.mk (Some true)))
           (Some (ec2.AttributeBooleanValue.mk (Some false)))),
   None, c).

(** A stand-in for [setTags] that keeps the tags it is given. *)
Definition sample_setTags (t : list (option ec2.Tag.t))
  (src : option (list (option ec2.Tag.t)))
  : Comp (list string) (list (option ec2.Tag.t)) :=
  ret (t ++ default [] src).

(** * Properties *)

(** ** [joinStringSlice] *)

Lemma joinStringSlice_loop (done rest : list string) :
  foldl joinStringSlice_step (map quote done ++ rest)
        (seq (length done) (length rest))
  = map quote (done ++ rest).
Proof.
  revert done. induction rest as [|x rest IH]; intros done.
  - simpl. by rewrite !app_nil_r.
  - simpl. unfold joinStringSlice_step at 2.
    assert (Hk : (map quote done ++ x :: rest) !! length done = Some x).
    { rewrite lookup_app_r; rewrite length_map; [|lia].
      by rewrite Nat.sub_diag. }
    rewrite Hk.
    assert (Hi : <[length done := quote x]> (map quote done ++ x :: rest)
                 = map quote (done ++ [x]) ++ rest).
    { rewrite insert_app_r_alt; rewrite length_map; [|lia].
      rewrite Nat.sub_diag. simpl.
      by rewrite map_app, <- app_assoc. }
    rewrite Hi.
    replace (S (length done)) with (length (done ++ [x]))
      by (rewrite length_app; simpl; lia).
    rewrite IH. by rewrite <- app_assoc.
Qed.

(** C10: after [joinStringSlice sep src] the caller's slice holds the quoted
    form of each of its former elements, position by position, and the
    value returned is those quoted elements joined by [sep]. *)
Theorem joinStringSlice_mutates_input (sep : string) (src : list string) :
  (joinStringSlice sep src).1 = map quote src
  /\ (forall k v, src !! k = Some v ->
                  (joinStringSlice sep src).1 !! k = Some (quote v))
  /\ (joinStringSlice sep src).2 = strings_Join (map quote src) sep.
Proof.
  assert (H : foldl joinStringSlice_step src (seq 0 (length src))
              = map quote src).
  { exact (joinStringSlice_loop [] src). }
  unfold joinStringSlice. simpl. rewrite H.
  split; [done|]. split; [|done].
  intros k v Hk. by rewrite list_lookup_fmap, Hk.
Qed.

Lemma joinStringSlice_mutates_input_witness :
  (joinStringSlice "," ["a"; "b"]).1 !! 1%nat = Some (quote "b").
Proof.
  apply (proj1 (proj2 (joinStringSlice_mutates_input "," ["a"; "b"]))).
  reflexivity.
Defined.

(** The caller sees the change: an unquoted element comes back quoted. *)
Example joinStringSlice_example :
  joinStringSlice "," ["a"; "b"]
  = ([dquote +:+ "a" +:+ dquote; dquote +:+ "b" +:+ dquote],
     dquote +:+ "a" +:+ dquote +:+ "," +:+ dquote +:+ "b" +:+ dquote).
Proof. reflexivity. Qed.

(** ** [handleError] *)

(** C2: a provider error whose code is one of the six allow-listed codes is
    turned into the nil error; every other error, from the provider or
    not, and the nil error itself, is returned as it is. *)
Theorem handleError_allow_list :
  (forall code message,
      In code allow_list -> handleError (Some (AwsError code message)) = None)
  /\ (forall err,
         (forall code message,
             err = Some (AwsError code message) -> ~ In code allow_list) ->
         handleError err = err).
Proof.
  split.
  - intros code message Hin. simpl in Hin.
    destruct Hin as [<-|[<-|[<-|[<-|[<-|[<-|[]]]]]]]; reflexivity.
  - intros [[code message|text]|] Hout; try reflexivity.
    specialize (Hout code message eq_refl). simpl in Hout.
    unfold handleError.
    repeat match goal with
           | |- context [String.eqb code ?c] =>
               destruct (String.eqb_spec code c) as [->|_];
               [exfalso; apply Hout; tauto|]
           end.
    reflexivity.
Qed.

Lemma handleError_allow_list_witness :
  handleError (Some (AwsError "NoSuchBucketPolicy" "no policy")) = None
  /\ handleError (Some (AwsError "AccessDenied" "denied"))
     = Some (AwsError "AccessDenied" "denied")
  /\ handleError (Some (OtherError "connection reset"))
     = Some (OtherError "connection reset").
Proof.
  split; [|split].
  - apply (proj1 handleError_allow_list). simpl. tauto.
  - apply (proj2 handleError_allow_list).
    intros code message H. inversion H; subst. simpl.
    intros [?|[?|[?|[?|[?|[?|[]]]]]]]; discriminate.
  - apply (proj2 handleError_allow_list).
    intros code message H. discriminate.
Defined.

(** ** The computations *)

Lemma mapM_app {S A B : Type} (f : A -> Comp S B) xs ys s bs s' cs s'' :
  mapM f xs s = Done bs s' ->
  mapM f ys s' = Done cs s'' ->
  mapM f (xs ++ ys) s = Done (bs ++ cs) s''.
Proof.
  revert s bs. induction xs as [|x xs IH]; intros s bs Hx Hy.
  - simpl in Hx. inversion Hx; subst. done.
  - simpl in *. unfold bind in *.
    destruct (f x s) as [b s1| |]; [|done..].
    destruct (mapM f xs s1) as [bs1 s2| |] eqn:E; [|done..].
    inversion Hx; subst. by rewrite (IH _ _ E Hy).
Qed.

Lemma mapM_length {S A B : Type} (f : A -> Comp S B) xs s bs s' :
  mapM f xs s = Done bs s' -> length bs = length xs.
Proof.
  revert s bs. induction xs as [|x xs IH]; intros s bs H; simpl in H.
  - by inversion H.
  - unfold bind in H. destruct (f x s) as [b s1| |]; [|done..].
    destruct (mapM f xs s1) as [bs1 s2| |] eqn:E; [|done..].
    inversion H; subst. simpl. by rewrite (IH _ _ E).
Qed.

(** ** [strings.Split] *)

Lemma strings_Split_nonempty s sep : strings_Split s sep <> [].
Proof.
  destruct s as [|c s]; simpl; [done|].
  destruct (Ascii.eqb c sep); [done|].
  by destruct (strings_Split s sep).
Qed.

Lemma last_index {A : Type} (xs : list A) : xs !! (length xs - 1)%nat = last xs.
Proof.
  induction xs as [|x [|y xs] IH]; [done..|].
  simpl in *. by rewrite Nat.sub_0_r in IH.
Qed.

Lemma strings_Split_no_sep name sep :
  contains_byte sep name = false -> strings_Split name sep = [name].
Proof.
  induction name as [|c name IH]; simpl; [done|].
  intros H. apply orb_false_iff in H as [Hc Hn].
  rewrite Hc, (IH Hn). done.
Qed.

Lemma strings_Split_two pre name sep :
  (2 <= length (strings_Split (pre +:+ String sep name) sep))%nat.
Proof.
  induction pre as [|c pre IH]; simpl.
  - rewrite Ascii.eqb_refl. simpl.
    pose proof (strings_Split_nonempty name sep).
    destruct (strings_Split name sep); [done|simpl; lia].
  - destruct (Ascii.eqb c sep); [simpl; lia|].
    destruct (strings_Split (pre +:+ String sep name) sep); simpl in *; lia.
Qed.

Lemma last_cons_cons {A : Type} (x : A) (xs : list A) :
  (1 <= length xs)%nat -> last (x :: xs) = last xs.
Proof. destruct xs; simpl; [lia|done]. Qed.

Lemma strings_Split_last pre name sep :
  contains_byte sep name = false ->
  last (strings_Split (pre +:+ String sep name) sep) = Some name.
Proof.
  intros Hn. induction pre as [|c pre IH]; simpl.
  - rewrite Ascii.eqb_refl, (strings_Split_no_sep _ _ Hn). done.
  - pose proof (strings_Split_two pre name sep) as H2.
    destruct (Ascii.eqb c sep).
    + rewrite last_cons_cons; [done|lia].
    + destruct (strings_Split (pre +:+ String sep name) sep)
        as [|seg [|seg' rest]]; simpl in H2; [lia..|].
      exact IH.
Qed.

(** ** [Instance.set] *)

Lemma for_range_SecurityGroups sgs i σ :
  forallb truthy_ptr sgs = true ->
  for_range SecurityGroups_body i sgs σ
  = Done (Instance.with_SecurityGroups
            (group_names (Instance.SecurityGroups i) (Some sgs)) i) σ.
Proof.
  revert i. induction sgs as [|[g|] sgs IH]; intros i Hwf.
  - by destruct i.
  - simpl in Hwf. simpl for_range. unfold bind, SecurityGroups_body.
    simpl. unfold bind. simpl. rewrite (IH _ Hwf).
    destruct i, sgs; simpl; unfold Instance.with_SecurityGroups; simpl;
      [done|].
    by rewrite <- app_assoc.
  - done.
Qed.

Lemma for_range_Tags ts i m σ :
  forallb truthy_ptr ts = true ->
  Instance.Tags i = Some m ->
  for_range Tags_body i ts σ
  = Done (Instance.with_Tags (Some (tag_map ts m)) i) σ.
Proof.
  revert i m. induction ts as [|[t|] ts IH]; intros i m Hwf Hm.
  - destruct i; simpl in *. by subst.
  - simpl in Hwf. simpl for_range. unfold bind, Tags_body. simpl.
    unfold bind. rewrite Hm. simpl.
    rewrite (IH _ (<[ec2.Tag.Key t := ec2.Tag.Value t]> m) Hwf); [|done].
    by destruct i.
  - done.
Qed.

Lemma Split_index (x : string) (σ : store) :
  index (strings_Split x slash) (length (strings_Split x slash) - 1) σ
  = Done (default EmptyString (last (strings_Split x slash))) σ.
Proof.
  unfold index. rewrite last_index.
  pose proof (strings_Split_nonempty x slash) as Hne.
  destruct (strings_Split x slash) as [|y ys] eqn:E; [done|].
  destruct (last (y :: ys)) eqn:El; [done|].
  by apply last_None in El.
Qed.

Lemma strings_Compare_eqb (x y : string) :
  Z.eqb (strings_Compare x y) 0 = String.eqb x y.
Proof.
  unfold strings_Compare.
  destruct (String.eqb_spec x y) as [->|Hne].
  - pose proof (String.compare_antisym y y) as H.
    by destruct (String.compare y y).
  - destruct (String.compare x y) eqn:E; [|done..].
    by apply String.compare_eq_iff in E.
Qed.

(** When the pointers it dereferences are not nil, [Instance.set] returns
    the nil error and leaves the struct and the store given by
    [Instance_after] and [store_after]. *)
Lemma Instance_set_spec (i : Instance.t) (s : ec2.Instance.t) (σ : store) :
  wf_Instance s = true ->
  Instance_set i (Some s) σ
  = Done (Instance_after σ i s, None) (store_after σ s).
Proof.
  unfold wf_Instance. intros Hwf.
  apply andb_true_iff in Hwf as [Hwf Htags].
  apply andb_true_iff in Hwf as [Hmon Hsgs].
  destruct s as [ebs prof image id type key mon sgs sdc st subnet vpc tags].
  simpl in *. destruct mon as [mon|]; [clear Hmon|done].
  unfold Instance_set, Instance_after, store_after, profile_name. simpl.
  destruct prof as [[[a|]]|]; destruct sgs as [sgs|];
    destruct tags as [tags|]; simpl in *;
    unfold bind; simpl;
    rewrite ?Split_index; simpl;
    rewrite ?strings_Compare_eqb;
    rewrite ?(for_range_SecurityGroups _ _ _ Hsgs); simpl;
    try (erewrite for_range_Tags; [|exact Htags|reflexivity]); simpl;
    unfold ret;
    match goal with
    | |- context [String.eqb ?x "disabled"] =>
        destruct (String.eqb x "disabled")
    end;
    destruct i; try destruct sgs; reflexivity.
Qed.

Lemma aws_StringValue_app σ extra p :
  valid_ptr σ p -> aws_StringValue (σ ++ extra) p = aws_StringValue σ p.
Proof.
  destruct p as [a|]; [|done]. unfold valid_ptr, aws_StringValue.
  intros Ha. by rewrite lookup_app_l.
Qed.

Lemma aws_StringValue_store_after σ s p :
  valid_ptr σ p ->
  aws_StringValue (store_after σ s) p = aws_StringValue σ p.
Proof.
  intros Hp. unfold store_after.
  destruct (profile_name σ s); [|done]. by apply aws_StringValue_app.
Qed.

(** C5: [Instance.set] maps the monitoring state string [disabled] to the
    boolean false and any other monitoring state, a nil string included,
    to the boolean true. *)
Theorem Instance_set_Monitoring (i : Instance.t) (s : ec2.Instance.t)
  (m : ec2.Monitoring.t) (σ : store) :
  wf_Instance s = true ->
  ec2.Instance.Monitoring s = Some m ->
  valid_ptr σ (ec2.Monitoring.State m) ->
  exists i' σ',
    Instance_set i (Some s) σ = Done (i', None) σ'
    /\ (aws_StringValue σ (ec2.Monitoring.State m) = "disabled" ->
        Instance.Monitoring i' = Some false)
    /\ (aws_StringValue σ (ec2.Monitoring.State m) <> "disabled" ->
        Instance.Monitoring i' = Some true).
Proof.
  intros Hwf Hm Hp.
  exists (Instance_after σ i s), (store_after σ s).
  split; [by apply Instance_set_spec|].
  unfold Instance_after. simpl. rewrite Hm. simpl.
  rewrite (aws_StringValue_store_after _ _ _ Hp).
  split; intros H.
  - by rewrite H.
  - apply String.eqb_neq in H. by rewrite H.
Qed.

Lemma Instance_set_Monitoring_witness :
  exists i' σ',
    Instance_set Instance.zero (Some sample_instance) sample_store
    = Done (i', None) σ'
    /\ Instance.Monitoring i' = Some false.
Proof.
  destruct (Instance_set_Monitoring Instance.zero sample_instance
              (ec2.Monitoring.mk (Some 1%nat)) sample_store)
    as (i' & σ' & Hrun & Hdisabled & _).
  - reflexivity.
  - reflexivity.
  - simpl. lia.
  - exists i', σ'. split; [exact Hrun|]. apply Hdisabled. reflexivity.
Defined.

(** C6: [Instance.set] maps the ARN of an IAM instance profile to the
    segment after its last slash, stored in a new string; the ARN
    [arn:aws:iam::123456789012:instance-profile/myprofile] is mapped to
    [myprofile]. *)
Theorem Instance_set_profile_name (i : Instance.t) (s : ec2.Instance.t)
  (prof : ec2.IamInstanceProfile.t) (a : addr) (pre name : string)
  (σ : store) :
  wf_Instance s = true ->
  ec2.Instance.IamInstanceProfile s = Some prof ->
  ec2.IamInstanceProfile.Arn prof = Some a ->
  aws_StringValue σ (Some a) = pre +:+ String slash name ->
  contains_byte slash name = false ->
  exists i' σ',
    Instance_set i (Some s) σ = Done (i', None) σ'
    /\ aws_StringValue σ' (Instance.IamInstanceProfile i') = name.
Proof.
  intros Hwf Hprof Harn Htext Hname.
  exists (Instance_after σ i s), (store_after σ s).
  split; [by apply Instance_set_spec|].
  unfold Instance_after, store_after, profile_name.
  rewrite Hprof, Harn, Htext, (strings_Split_last _ _ _ Hname). simpl.
  rewrite lookup_app_r; [|lia]. by rewrite Nat.sub_diag.
Qed.

Lemma Instance_set_profile_name_witness :
  exists i' σ',
    Instance_set Instance.zero (Some sample_instance) sample_store
    = Done (i', None) σ'
    /\ aws_StringValue σ' (Instance.IamInstanceProfile i') = "myprofile".
Proof.
  apply (Instance_set_profile_name Instance.zero sample_instance
           (ec2.IamInstanceProfile.mk (Some 0%nat)) 0%nat
           "arn:aws:iam::123456789012:instance-profile" "myprofile"
           sample_store); reflexivity.
Defined.

Lemma tag_map_keeps (ts : list (option ec2.Tag.t))
  (m : gmap (option nat) (option nat)) (k : option nat) :
  is_Some (m !! k) -> is_Some (tag_map ts m !! k).
Proof.
  revert m. induction ts as [|[t|] ts IH]; intros m Hk; simpl; [done| |].
  - apply IH. destruct (decide (ec2.Tag.Key t = k)) as [->|Hne].
    + rewrite lookup_insert_eq. eauto.
    + by rewrite lookup_insert_ne.
  - by apply IH.
Qed.

Lemma tag_map_has_key (ts : list (option ec2.Tag.t))
  (m : gmap (option nat) (option nat)) (t : ec2.Tag.t) :
  In (Some t) ts -> is_Some (tag_map ts m !! ec2.Tag.Key t).
Proof.
  revert m. induction ts as [|u ts IH]; intros m Hin; [done|].
  destruct Hin as [->|Hin]; simpl.
  - apply tag_map_keeps. rewrite lookup_insert_eq. eauto.
  - destruct u; by apply IH.
Qed.

Lemma map_two_entries (m : gmap (option nat) (option nat))
  (k1 k2 : option nat) :
  k1 <> k2 -> is_Some (m !! k1) -> is_Some (m !! k2) -> (2 <= size m)%nat.
Proof.
  intros Hne H1 H2.
  assert (Hd : is_Some (delete k1 m !! k2)) by by rewrite lookup_delete_ne.
  apply map_size_ne_0_lookup_2 in Hd.
  rewrite (map_size_delete_Some _ _ H1) in Hd. lia.
Qed.

(** C7: the tags of an [Instance] are keyed by the address of the key
    string.  Two source tags whose keys are distinct cells holding the same
    text give two separate entries of the mapped [Tags]; when they are the
    only tags, each entry holds the value of its own tag. *)
Theorem Instance_set_Tags_by_reference (i : Instance.t) (s : ec2.Instance.t)
  (ts : list (option ec2.Tag.t)) (t1 t2 : ec2.Tag.t) (k1 k2 : addr)
  (σ : store) :
  wf_Instance s = true ->
  ec2.Instance.Tags s = Some ts ->
  In (Some t1) ts ->
  In (Some t2) ts ->
  ec2.Tag.Key t1 = Some k1 ->
  ec2.Tag.Key t2 = Some k2 ->
  k1 <> k2 ->
  aws_StringValue σ (Some k1) = aws_StringValue σ (Some k2) ->
  exists i' σ' (m : gmap (option nat) (option nat)),
    Instance_set i (Some s) σ = Done (i', None) σ'
    /\ Instance.Tags i' = Some m
    /\ is_Some (m !! Some k1)
    /\ is_Some (m !! Some k2)
    /\ (2 <= size m)%nat
    /\ (ts = [Some t1; Some t2] ->
        m !! Some k1 = Some (ec2.Tag.Value t1)
        /\ m !! Some k2 = Some (ec2.Tag.Value t2)
        /\ size m = 2%nat).
Proof.
  intros Hwf Hts Hin1 Hin2 Hk1 Hk2 Hne _.
  exists (Instance_after σ i s), (store_after σ s), (tag_map ts ∅).
  split; [by apply Instance_set_spec|].
  split; [unfold Instance_after; simpl; by rewrite Hts|].
  assert (H1 : is_Some (tag_map ts ∅ !! Some k1)).
  { rewrite <- Hk1. by apply tag_map_has_key. }
  assert (H2 : is_Some (tag_map ts ∅ !! Some k2)).
  { rewrite <- Hk2. by apply tag_map_has_key. }
  split; [done|]. split; [done|].
  split; [apply (map_two_entries _ (Some k1) (Some k2)); congruence|].
  intros ->. simpl. rewrite Hk1, Hk2.
  split; [|split].
  - rewrite lookup_insert_ne by congruence. by rewrite lookup_insert_eq.
  - by rewrite lookup_insert_eq.
  - rewrite map_size_insert_None.
    + by rewrite map_size_insert_None, map_size_empty.
    + rewrite lookup_insert_ne by congruence. done.
Qed.

Lemma Instance_set_Tags_by_reference_witness :
  exists i' σ' (m : gmap (option nat) (option nat)),
    Instance_set Instance.zero (Some sample_instance) sample_store
    = Done (i', None) σ'
    /\ Instance.Tags i' = Some m
    /\ m !! Some 5%nat = Some (Some 6%nat)
    /\ m !! Some 7%nat = Some (Some 8%nat)
    /\ size m = 2%nat.
Proof.
  destruct (Instance_set_Tags_by_reference Instance.zero sample_instance
              [Some (ec2.Tag.mk (Some 5%nat) (Some 6%nat));
               Some (ec2.Tag.mk (Some 7%nat) (Some 8%nat))]
              (ec2.Tag.mk (Some 5%nat) (Some 6%nat))
              (ec2.Tag.mk (Some 7%nat) (Some 8%nat))
              5%nat 7%nat sample_store)
    as (i' & σ' & m & Hrun & Hm & _ & _ & _ & Hexact).
  - reflexivity.
  - reflexivity.
  - simpl. tauto.
  - simpl. tauto.
  - reflexivity.
  - reflexivity.
  - lia.
  - reflexivity.
  - exists i', σ', m. destruct (Hexact eq_refl) as (Ha & Hb & Hc). tauto.
Defined.

(** C9: [Instance.set] reads [src.Monitoring.State] without a nil check.
    For a source instance whose [Monitoring] is nil it panics, so the
    mapped [Monitoring] is not left unset; it completes only when
    [Monitoring] is not nil. *)
Theorem Instance_set_nil_Monitoring_panics :
  (forall (i : Instance.t) (s : ec2.Instance.t) (σ : store),
      ec2.Instance.Monitoring s = None ->
      exists σ', Instance_set i (Some s) σ = Panic σ')
  /\ (forall (i : Instance.t) (s : ec2.Instance.t) (σ : store) r σ',
         Instance_set i (Some s) σ = Done r σ' ->
         ec2.Instance.Monitoring s <> None).
Proof.
  assert (Hpanic : forall (i : Instance.t) (s : ec2.Instance.t) (σ : store),
             ec2.Instance.Monitoring s = None ->
             exists σ', Instance_set i (Some s) σ = Panic σ').
  { intros i s σ Hmon.
    destruct s as [ebs prof image id type key mon sgs sdc st subnet vpc tags].
    simpl in Hmon. subst mon. unfold Instance_set. simpl.
    destruct prof as [[[a|]]|]; simpl; unfold bind; simpl;
      rewrite ?Split_index; simpl; eauto. }
  split; [exact Hpanic|].
  intros i s σ r σ' Hrun Hmon.
  destruct (Hpanic i s σ Hmon) as [σ'' Hp]. congruence.
Qed.

Lemma Instance_set_nil_Monitoring_panics_witness :
  (exists σ',
      Instance_set Instance.zero (Some sample_no_monitoring) sample_store
      = Panic σ')
  /\ ec2.Instance.Monitoring sample_instance <> None.
Proof.
  split.
  - apply (proj1 Instance_set_nil_Monitoring_panics). reflexivity.
  - apply (proj2 Instance_set_nil_Monitoring_panics Instance.zero
             sample_instance sample_store
             (Instance_after sample_store Instance.zero sample_instance, None)
             (store_after sample_store sample_instance)).
    vm_compute. reflexivity.
Defined.

(** ** [Instances.set] *)

Lemma new_Instance_total (v : option ec2.Instance.t) (σ : store) :
  valid_Instance v = true -> exists i σ', new_Instance v σ = Done i σ'.
Proof.
  destruct v as [s|]; [|done]. simpl. intros Hv.
  apply andb_true_iff in Hv as [_ Hwf].
  unfold new_Instance, bind.
  rewrite (Instance_set_spec _ _ _ Hwf). simpl. eauto.
Qed.

Lemma Instances_set_body_spec (acc : Instances) (v : option ec2.Instance.t)
  (σ : store) :
  valid_Instance v = true ->
  Instances_set_body acc v σ
  = if retained v
    then bind (new_Instance v) (fun tmp => ret (acc ++ [tmp])) σ
    else Done acc σ.
Proof.
  destruct v as [s|]; [|done]. simpl. intros Hv.
  apply andb_true_iff in Hv as [Hst Hwf].
  unfold Instances_set_body, retained, state_code, new_Instance.
  unfold bind. simpl.
  destruct (ec2.Instance.State s) as [st|]; [|done]. simpl.
  destruct (Z.eqb (aws_Int64Value (ec2.InstanceState.Code st)) 48); simpl;
    [reflexivity|].
  rewrite (Instance_set_spec _ _ _ Hwf). reflexivity.
Qed.

Lemma Instances_set_loop (l : list (option ec2.Instance.t)) (acc : Instances)
  (σ : store) :
  forallb valid_Instance l = true ->
  exists new σ',
    for_range Instances_set_body acc l σ = Done (acc ++ new) σ'
    /\ mapM new_Instance (List.filter retained l) σ = Done new σ'.
Proof.
  revert acc σ. induction l as [|v l IH]; intros acc σ Hl.
  - exists [], σ. simpl. by rewrite app_nil_r.
  - simpl in Hl. apply andb_true_iff in Hl as [Hv Hl].
    simpl. unfold bind at 1. rewrite (Instances_set_body_spec _ _ _ Hv).
    destruct (retained v).
    + destruct (new_Instance_total v σ Hv) as (i & σ1 & Hi).
      unfold bind at 1. rewrite Hi. simpl.
      destruct (IH (acc ++ [i]) σ1 Hl) as (new & σ' & Hrun & Hmap).
      exists (i :: new), σ'. split.
      * rewrite Hrun. by rewrite <- app_assoc.
      * unfold bind. by rewrite Hi, Hmap.
    + destruct (IH acc σ Hl) as (new & σ' & Hrun & Hmap).
      exists new, σ'. by split.
Qed.

Lemma Instances_set_loop_eq (l : list (option ec2.Instance.t))
  (acc : Instances) (σ : store) :
  forallb has_state l = true ->
  for_range Instances_set_body acc l σ
  = bind (mapM new_Instance (List.filter retained l))
         (fun new => ret (acc ++ new)) σ.
Proof.
  revert acc σ. induction l as [|v l IH]; intros acc σ Hl.
  - simpl. unfold bind, ret. by rewrite app_nil_r.
  - simpl in Hl. apply andb_true_iff in Hl as [Hv Hl].
    destruct v as [s|]; [|done].
    unfold has_state, state_code in Hv.
    destruct (ec2.Instance.State s) as [st|] eqn:Est; [clear Hv|done].
    assert (Hr : retained (Some s)
                 = negb (Z.eqb (aws_Int64Value (ec2.InstanceState.Code st))
                               48)).
    { unfold retained, state_code. by rewrite Est. }
    simpl. rewrite Hr.
    unfold bind at 1. unfold Instances_set_body at 1. unfold bind. simpl.
    rewrite Est. simpl.
    destruct (Z.eqb (aws_Int64Value (ec2.InstanceState.Code st)) 48); simpl.
    + apply IH, Hl.
    + unfold new_Instance at 1. unfold bind.
      destruct (Instance_set Instance.zero (Some s) σ) as [[tmp e] σ1|σ1|σ1];
        simpl; [|done..].
      rewrite (IH _ _ Hl). unfold bind.
      destruct (mapM new_Instance (List.filter retained l) σ1); simpl;
        [|done..].
      unfold ret. by rewrite <- app_assoc.
Qed.

(** C4: [Instances.set] maps, in the order of the source list, exactly the
    instances whose state code is not 48 and appends their images to the
    collection; an instance whose state code is 48 adds nothing, and a nil
    source list leaves the collection as it is.  When no pointer that
    [Instance.set] dereferences is nil, the call completes. *)
Theorem Instances_set_drops_terminated (acc : Instances)
  (l : list (option ec2.Instance.t)) (σ : store) :
  Instances_set acc None σ = Done acc σ
  /\ (forallb has_state l = true ->
      Instances_set acc (Some l) σ
      = bind (mapM new_Instance (List.filter retained l))
             (fun new => ret (acc ++ new)) σ)
  /\ (forallb valid_Instance l = true ->
      exists new σ',
        Instances_set acc (Some l) σ = Done (acc ++ new) σ'
        /\ mapM new_Instance (List.filter retained l) σ = Done new σ'
        /\ length new = length (List.filter retained l)).
Proof.
  split; [done|]. split.
  - apply Instances_set_loop_eq.
  - intros Hl.
    destruct (Instances_set_loop l acc σ Hl) as (new & σ' & Hrun & Hmap).
    exists new, σ'. split; [exact Hrun|]. split; [exact Hmap|].
    by apply mapM_length in Hmap.
Qed.

Lemma Instances_set_drops_terminated_witness :
  Instances_set []
    (Some [Some sample_instance; Some sample_terminated;
           Some sample_no_image]) sample_store
  = bind (mapM new_Instance [Some sample_instance; Some sample_no_image])
         (fun new => ret ([] ++ new)) sample_store
  /\ exists new σ',
       Instances_set []
         (Some [Some sample_instance; Some sample_terminated;
                Some sample_no_image]) sample_store
       = Done new σ'
       /\ length new = 2%nat.
Proof.
  destruct (Instances_set_drops_terminated []
              [Some sample_instance; Some sample_terminated;
               Some sample_no_image] sample_store)
    as (_ & Heq & Htotal).
  split.
  - apply Heq. reflexivity.
  - destruct Htotal as (new & σ' & Hrun & _ & Hlen); [reflexivity|].
    exists new, σ'. split; [exact Hrun|exact Hlen].
Defined.

(** ** [GetInstances]: the pages are concatenated *)

Lemma Reservations_loop (rs : list (option ec2.Reservation.t))
  (acc : Instances) (σ : store) :
  forallb (fun r => truthy_ptr r) rs = true ->
  forallb valid_Instance
    (flat_map (fun r => default [] (r ≫= ec2.Reservation.Instances)) rs)
  = true ->
  exists new σ',
    for_range Reservations_body acc rs σ = Done (acc ++ new) σ'
    /\ mapM new_Instance
         (List.filter retained
            (flat_map (fun r => default [] (r ≫= ec2.Reservation.Instances))
                      rs)) σ
       = Done new σ'.
Proof.
  revert acc σ. induction rs as [|[r|] rs IH]; intros acc σ Hrs Hvalid.
  - exists [], σ. simpl. by rewrite app_nil_r.
  - simpl in Hrs, Hvalid. rewrite forallb_app in Hvalid.
    apply andb_true_iff in Hvalid as [Hr Hrest].
    assert (Hone : exists new1 σ1,
               Instances_set acc (ec2.Reservation.Instances r) σ
               = Done (acc ++ new1) σ1
               /\ mapM new_Instance
                    (List.filter retained
                       (default [] (ec2.Reservation.Instances r))) σ
                  = Done new1 σ1).
    { destruct (ec2.Reservation.Instances r) as [l|]; simpl in *.
      - by apply Instances_set_loop.
      - exists [], σ. by rewrite app_nil_r. }
    destruct Hone as (new1 & σ1 & Hrun1 & Hmap1).
    destruct (IH (acc ++ new1) σ1 Hrs Hrest) as (new2 & σ2 & Hrun2 & Hmap2).
    exists (new1 ++ new2), σ2. split.
    + simpl. unfold bind, Reservations_body at 1. simpl. unfold bind. simpl.
      rewrite Hrun1, Hrun2. by rewrite <- app_assoc.
    + simpl. rewrite List.filter_app. by apply (mapM_app _ _ _ _ _ σ1).
  - done.
Qed.

Section FetchProperties.

Context {conn : Type}.

Variable DescribeInstances :
  ec2.DescribeInstancesInput.t -> conn ->
  option ec2.DescribeInstancesOutput.t * error * conn.

Lemma GetInstances_loop_serves c token pages c' :
  serves DescribeInstances c token pages c' ->
  forall fuel acc (w : world conn),
    remote w = c ->
    forallb valid_page pages = true ->
    (length pages <= fuel)%nat ->
    exists new w',
      GetInstances_loop DescribeInstances fuel
        (ec2.DescribeInstancesInput.mk token) acc w
      = Done (Some (acc ++ new), None) w'
      /\ mapM new_Instance
           (List.filter retained (flat_map page_instances pages)) (strs w)
         = Done new (strs w')
      /\ remote w' = c'.
Proof.
  induction 1 as [c token o c' Hcall Hlast
                 |c token o c' t os c'' Hcall Hnext Hrest IH];
    intros fuel acc w Hw Hvalid Hfuel;
    (destruct fuel as [|fuel]; [simpl in Hfuel; lia|]);
    simpl in Hvalid; apply andb_true_iff in Hvalid as [Hpage Hpages];
    unfold valid_page in Hpage; apply andb_true_iff in Hpage as [Hrs Hinsts];
    destruct (Reservations_loop _ acc (strs w) Hrs Hinsts)
      as (new1 & σ1 & Hrun1 & Hmap1);
    simpl; unfold bind, call; rewrite Hw, Hcall; simpl;
    unfold on_store at 1; simpl; rewrite Hrun1.
  - rewrite Hlast. simpl. eexists new1, _. split; [reflexivity|].
    simpl. rewrite app_nil_r. by split.
  - rewrite Hnext. simpl.
    set (w1 := mkWorld σ1 _ _ _).
    destruct (IH fuel (acc ++ new1) w1 eq_refl Hpages) as
      (new2 & w' & Hrun2 & Hmap2 & Hc); [simpl in Hfuel; lia|].
    exists (new1 ++ new2), w'. split; [|split; [|exact Hc]].
    + rewrite Hrun2. by rewrite <- app_assoc.
    + rewrite List.filter_app. by apply (mapM_app _ _ _ _ _ σ1).
Qed.

(** C3: when the provider answers the requests of [GetInstances] with [N]
    pages, each but the last carrying a continuation token, [GetInstances]
    returns (given at least [N] iterations) the nil error and exactly the
    mapped images of the non-terminated instances of the pages, page by
    page and reservation by reservation in their order: one element per
    retained instance, none missing and none repeated. *)
Theorem GetInstances_concatenates_pages
  (pages : list ec2.DescribeInstancesOutput.t) (c' : conn) (w : world conn)
  (fuel : nat) :
  serves DescribeInstances (remote w) None pages c' ->
  forallb valid_page pages = true ->
  (length pages <= fuel)%nat ->
  exists insts w',
    GetInstances DescribeInstances fuel w = Done (Some insts, None) w'
    /\ mapM new_Instance
         (List.filter retained (flat_map page_instances pages)) (strs w)
       = Done insts (strs w')
    /\ length insts
       = length (List.filter retained (flat_map page_instances pages)).
Proof.
  intros Hserves Hvalid Hfuel.
  destruct (GetInstances_loop_serves _ _ _ _ Hserves fuel [] w eq_refl
              Hvalid Hfuel) as (new & w' & Hrun & Hmap & _).
  exists new, w'. split; [exact Hrun|]. split; [exact Hmap|].
  by apply mapM_length in Hmap.
Qed.

End FetchProperties.

Lemma GetInstances_concatenates_pages_witness :
  exists insts w',
    GetInstances scripted_DescribeInstances 2
      (mkWorld sample_store [] [(Some sample_page1, None);
                                (Some sample_page2, None)] [])
    = Done (Some insts, None) w'
    /\ mapM new_Instance [Some sample_instance; Some sample_no_image]
         sample_store
       = Done insts (strs w')
    /\ length insts = 2%nat.
Proof.
  apply (GetInstances_concatenates_pages scripted_DescribeInstances
           [sample_page1; sample_page2] []
           (mkWorld sample_store [] [(Some sample_page1, None);
                                     (Some sample_page2, None)] []) 2).
  - eapply serves_more; [reflexivity|reflexivity|].
    eapply serves_last; reflexivity.
  - reflexivity.
  - simpl. lia.
Defined.

(** ** [GetInstances] and [GetVPCs]: an API error ends the fetch *)

Section FetchErrors.

Context {conn : Type}.

Variable DescribeInstances :
  ec2.DescribeInstancesInput.t -> conn ->
  option ec2.DescribeInstancesOutput.t * error * conn.

Variable DescribeVpcs :
  ec2.DescribeVpcsInput.t -> conn ->
  option ec2.DescribeVpcsOutput.t * error * conn.

Variable DescribeVpcClassicLink :
  ec2.DescribeVpcClassicLinkInput.t -> conn ->
  option ec2.DescribeVpcClassicLinkOutput.t * error * conn.

Variable DescribeVpcClassicLinkDnsSupport :
  ec2.DescribeVpcClassicLinkDnsSupportInput.t -> conn ->
  option ec2.DescribeVpcClassicLinkDnsSupportOutput.t * error * conn.

Variable DescribeVpcAttribute :
  ec2.DescribeVpcAttributeInput.t -> conn ->
  option ec2.DescribeVpcAttributeOutput.t * error * conn.

Context {Tags : Type}.
Variable Tags_zero : Tags.
Variable setTags : Tags -> option (list (option ec2.Tag.t)) -> Comp store Tags.

Lemma quiet_on_store {A : Type} (m : Comp store A) :
  quiet (on_store (conn := conn) m).
Proof. intros w. unfold on_store. by destruct (m (strs w)). Qed.

Lemma quiet_deref {A : Type} (p : option A) :
  quiet (deref (S := world conn) p).
Proof. intros w. by destruct p. Qed.

Lemma quiet_Println (s : string) : quiet (Println (conn := conn) s).
Proof. by intros w. Qed.

Lemma quiet_ret {A : Type} (a : A) : quiet (ret (S := world conn) a).
Proof. by intros w. Qed.

Lemma error_post_silent {X : Type} (P : X -> Prop) (w : world conn)
  (o : outcome (world conn) (X * error)) :
  history (final o) = history w ->
  (forall x e w', o = Done (x, e) w' -> e = None) ->
  error_post P (history w) o.
Proof.
  intros Hh Hok. exists []. rewrite app_nil_r. split; [done|].
  left. by split.
Qed.

Lemma error_post_extend {X : Type} (P : X -> Prop) (h pre : list error)
  (o : outcome (world conn) (X * error)) :
  Forall (fun e => e = None) pre ->
  error_post P (h ++ pre) o ->
  error_post P h o.
Proof.
  intros Hpre (calls & Hh & Hcases). exists (pre ++ calls).
  split; [by rewrite app_assoc|].
  destruct Hcases as [[Hall Hok]|(ok & e & x & w' & -> & Hall & HP & ->)].
  - left. split; [by apply Forall_app|done].
  - right. exists (pre ++ ok), e, x, w'.
    split; [by rewrite app_assoc|]. split; [by apply Forall_app|done].
Qed.

(** A step that makes no call, followed by [k]. *)
Lemma error_post_quiet_bind {A Y : Type} (Q : Y -> Prop)
  (m : Comp (world conn) A) (k : A -> Comp (world conn) (Y * error))
  (w : world conn) :
  quiet m ->
  (forall a w', error_post Q (history w') (k a w')) ->
  error_post Q (history w) (bind m k w).
Proof.
  intros Hq Hk. specialize (Hq w). unfold bind.
  destruct (m w) as [a w1|w1|w1]; simpl in Hq; rewrite <- Hq.
  - apply Hk.
  - by apply error_post_silent.
  - by apply error_post_silent.
Qed.

(** A step that returns a result and an error, followed by [k], when [k]
    returns at once the error it is given. *)
Lemma error_post_bind {X Y : Type} (P : X -> Prop) (Q : Y -> Prop)
  (m : Comp (world conn) (X * error))
  (k : X * error -> Comp (world conn) (Y * error)) (w : world conn) :
  error_post P (history w) (m w) ->
  (forall x e w', exists y, k (x, Some e) w' = Done (y, Some e) w' /\ Q y) ->
  (forall x w', error_post Q (history w') (k (x, None) w')) ->
  error_post Q (history w) (bind m k w).
Proof.
  intros (calls & Hh & Hcases) Herr Hok. unfold bind.
  destruct Hcases as [[Hall Hnone]|(ok & e & x & w' & -> & Hall & HP & Hm)].
  - destruct (m w) as [[x e] w1|w1|w1] eqn:Hm; simpl in Hh.
    + rewrite (Hnone x e w1 eq_refl).
      apply (error_post_extend Q _ calls _ Hall). rewrite <- Hh. apply Hok.
    + exists calls. split; [done|]. left. by split.
    + exists calls. split; [done|]. left. by split.
  - rewrite Hm in *. simpl in Hh.
    destruct (Herr x e w') as (y & Hk & HQ). rewrite Hk.
    exists (ok ++ [Some e]). split; [done|].
    right. by exists ok, e, y, w'.
Qed.

Lemma error_post_call {I O : Type}
  (op : I -> conn -> option O * error * conn) (input : I) (w : world conn) :
  error_post (fun _ => True) (history w) (call op input w).
Proof.
  unfold call. destruct (op input (remote w)) as [[out err] c].
  exists [err]. split; [done|]. destruct err as [e|].
  - right. by exists [], e, out, (mkWorld (strs w) (stdout w) c
                                         (history w ++ [Some e])).
  - left. split; [by repeat constructor|].
    intros x e w' H. by inversion H.
Qed.

Lemma error_post_ret {Y : Type} (Q : Y -> Prop) (y : Y) (w : world conn) :
  error_post Q (history w) (ret (y, None) w).
Proof. apply error_post_silent; [done|]. intros x e w' H. by inversion H. Qed.

Lemma GetInstances_loop_post (fuel : nat)
  (opt : ec2.DescribeInstancesInput.t) (acc : Instances) (w : world conn) :
  error_post (fun r => r = None) (history w)
    (GetInstances_loop DescribeInstances fuel opt acc w).
Proof.
  revert opt acc w. induction fuel as [|fuel IH]; intros opt acc w.
  - by apply error_post_silent.
  - simpl. apply (error_post_bind (fun _ => True)).
    + apply error_post_call.
    + intros out e w'. by exists None.
    + intros out w1. apply error_post_quiet_bind; [apply quiet_deref|].
      intros o w2. apply error_post_quiet_bind; [apply quiet_on_store|].
      intros insts w3.
      destruct (ec2.DescribeInstancesOutput.NextToken o).
      * apply error_post_quiet_bind; [apply quiet_on_store|].
        intros token w4.
        apply error_post_quiet_bind; [apply quiet_Println|].
        intros _ w5. apply IH.
      * apply error_post_ret.
Qed.

Lemma setVPCAttribute_post (vpc : VPC.t Tags)
  (classicLink : option ec2.DescribeVpcClassicLinkOutput.t)
  (classicLinkDnsSupport : option ec2.DescribeVpcClassicLinkDnsSupportOutput.t)
  (w : world conn) :
  error_post (fun _ => True) (history w)
    (setVPCAttribute DescribeVpcAttribute vpc classicLink
       classicLinkDnsSupport w).
Proof.
  unfold setVPCAttribute.
  apply error_post_quiet_bind; [apply quiet_on_store|]. intros opt w1.
  apply (error_post_bind (fun _ => True)); [apply error_post_call| |].
  { intros out e w'. by eexists. }
  intros out w2. apply error_post_quiet_bind; [apply quiet_deref|].
  intros o w3. apply error_post_quiet_bind; [apply quiet_deref|].
  intros h w4. apply error_post_quiet_bind; [apply quiet_on_store|].
  intros opt' w5.
  apply (error_post_bind (fun _ => True)); [apply error_post_call| |].
  { intros out' e w'. by eexists. }
  intros out' w6. apply error_post_quiet_bind; [apply quiet_deref|].
  intros o' w7. apply error_post_quiet_bind; [apply quiet_deref|].
  intros d w8. apply error_post_quiet_bind; [apply quiet_deref|].
  intros cl w9. apply error_post_quiet_bind; [apply quiet_on_store|].
  intros vpc1 w10. apply error_post_quiet_bind; [apply quiet_deref|].
  intros cd w11. apply error_post_quiet_bind; [apply quiet_on_store|].
  intros vpc2 w12. apply error_post_ret.
Qed.

Lemma GetVPCs_loop_post
  (classicLink : option ec2.DescribeVpcClassicLinkOutput.t)
  (classicLinkDnsSupport : option ec2.DescribeVpcClassicLinkDnsSupportOutput.t)
  (vs : list (option ec2.Vpc.t)) (res : VPCs Tags) (w : world conn) :
  error_post (fun r => r = None) (history w)
    (GetVPCs_loop DescribeVpcAttribute Tags_zero setTags classicLink
       classicLinkDnsSupport res vs w).
Proof.
  revert res w. induction vs as [|p vs IH]; intros res w.
  - apply error_post_ret.
  - simpl. apply error_post_quiet_bind; [apply quiet_deref|]. intros v w1.
    apply error_post_quiet_bind; [apply quiet_ret|]. intros tags w2.
    apply error_post_quiet_bind; [apply quiet_on_store|]. intros tags' w3.
    apply (error_post_bind (fun _ => True));
      [apply setVPCAttribute_post| |].
    + intros vpc e w'. by exists None.
    + intros vpc w4. apply IH.
Qed.

Lemma GetVPCs_post (w : world conn) :
  error_post (fun r => r = None) (history w)
    (GetVPCs DescribeVpcs DescribeVpcClassicLink
       DescribeVpcClassicLinkDnsSupport DescribeVpcAttribute Tags_zero
       setTags w).
Proof.
  unfold GetVPCs.
  apply (error_post_bind (fun _ => True)); [apply error_post_call| |].
  { intros out e w'. by exists None. }
  intros basicInfo w1.
  apply (error_post_bind (fun _ => True)); [apply error_post_call| |].
  { intros out e w'. by exists None. }
  intros classicLink w2.
  apply (error_post_bind (fun _ => True)); [apply error_post_call| |].
  { intros out e w'. by exists None. }
  intros classicLinkDnsSupport w3.
  apply error_post_quiet_bind; [apply quiet_deref|]. intros b w4.
  apply GetVPCs_loop_post.
Qed.

Lemma error_post_returned {R : Type} (w : world conn)
  (o : outcome (world conn) (option R * error)) (e : error_value) :
  error_post (fun r => r = None) (history w) o ->
  In (Some e) (returned_errors w o) ->
  exists w' ok,
    o = Done (None, Some e) w'
    /\ returned_errors w o = ok ++ [Some e]
    /\ Forall (fun e => e = None) ok.
Proof.
  intros (calls & Hh & Hcases) Hin. unfold returned_errors in *.
  rewrite Hh, drop_app_length in *.
  destruct Hcases as [[Hall _]|(ok & e' & x & w' & -> & Hall & -> & ->)].
  - rewrite Forall_forall in Hall. apply list_elem_of_In in Hin.
    by specialize (Hall _ Hin).
  - apply in_app_or in Hin as [Hin|[Heq|[]]].
    + rewrite Forall_forall in Hall. apply list_elem_of_In in Hin.
      by specialize (Hall _ Hin).
    + inversion Heq; subst. by exists w', ok.
Qed.

(** C8: whenever an API call made by [GetInstances] or by [GetVPCs]
    returns an error, that call is the last one the fetch makes, and the
    fetch returns that same error with a nil result: nothing of what was
    fetched before is returned. *)
Theorem fetch_aborts_on_error (w : world conn) (e : error_value) :
  (forall fuel,
      In (Some e)
         (returned_errors w (GetInstances DescribeInstances fuel w)) ->
      exists w' ok,
        GetInstances DescribeInstances fuel w = Done (None, Some e) w'
        /\ returned_errors w (GetInstances DescribeInstances fuel w)
           = ok ++ [Some e]
        /\ Forall (fun e => e = None) ok)
  /\ (In (Some e)
         (returned_errors w
            (GetVPCs DescribeVpcs DescribeVpcClassicLink
               DescribeVpcClassicLinkDnsSupport DescribeVpcAttribute
               Tags_zero setTags w)) ->
      exists w' ok,
        GetVPCs DescribeVpcs DescribeVpcClassicLink
          DescribeVpcClassicLinkDnsSupport DescribeVpcAttribute
          Tags_zero setTags w
        = Done (None, Some e) w'
        /\ returned_errors w
             (GetVPCs DescribeVpcs DescribeVpcClassicLink
                DescribeVpcClassicLinkDnsSupport DescribeVpcAttribute
                Tags_zero setTags w)
           = ok ++ [Some e]
        /\ Forall (fun e => e = None) ok).
Proof.
  split.
  - intros fuel. apply error_post_returned. apply GetInstances_loop_post.
  - apply error_post_returned. apply GetVPCs_post.
Qed.

End FetchErrors.

Lemma fetch_aborts_on_error_witness :
  (exists w',
      GetInstances scripted_DescribeInstances 5
        (mkWorld sample_store [] [(Some sample_page1, None);
                                  (None, Some sample_denied)] [])
      = Done (None, Some sample_denied) w')
  /\ (exists w',
         GetVPCs sample_DescribeVpcs sample_DescribeVpcClassicLink
           sample_DescribeVpcClassicLinkDnsSupport
           sample_DescribeVpcAttribute [] sample_setTags
           (mkWorld sample_store [] tt [])
         = Done (None, Some sample_denied) w').
Proof.
  split.
  - destruct (proj1 (fetch_aborts_on_error scripted_DescribeInstances
                       (fun _ c => (None, None, c))
                       (fun _ c => (None, None, c))
                       (fun _ c => (None, None, c))
                       (fun _ c => (None, None, c))
                       [] sample_setTags
                       (mkWorld sample_store []
                          [(Some sample_page1, None);
                           (None, Some sample_denied)] [])
                       sample_denied) 5%nat)
      as (w' & ok & Hrun & _).
    + vm_compute. tauto.
    + by exists w'.
  - destruct (proj2 (fetch_aborts_on_error
                       (fun _ c => (None, None, c))
                       sample_DescribeVpcs sample_DescribeVpcClassicLink
                       sample_DescribeVpcClassicLinkDnsSupport
                       sample_DescribeVpcAttribute [] sample_setTags
                       (mkWorld sample_store [] tt [])
                       sample_denied))
      as (w' & ok & Hrun & _).
    + vm_compute. tauto.
    + by exists w'.
Defined.

(** ** The template *)

Lemma has_chunk_app (a : string) (l1 l2 : list string) :
  has_chunk a (l1 ++ l2) = has_chunk a l1 || has_chunk a l2.
Proof. apply existsb_app. Qed.

Lemma has_chunk_when (a : string) (c : bool) (line : string) :
  has_chunk a (when c line) = c && line_for a line.
Proof. destruct c; simpl; [by rewrite orb_false_r|done]. Qed.

Lemma has_chunk_entries (a : string) (σ : store)
  (l : list (option nat * option nat)) :
  (forall rest, line_for a (nl +:+ "        " +:+ dquote +:+ rest) = false) ->
  has_chunk a
    (map (fun kv => nl +:+ "        " +:+ dquote +:+ print_strptr σ kv.1
                    +:+ dquote +:+ " = " +:+ dquote
                    +:+ print_strptr σ kv.2 +:+ dquote) l)
  = false.
Proof.
  intros Ha. induction l as [|kv l IH]; [done|].
  simpl. rewrite orb_false_iff. split; [apply Ha|apply IH].
Qed.

Lemma has_chunk_Tags_lines (a : string) (σ : store)
  (m : option (gmap (option nat) (option nat))) :
  line_for a (nl +:+ "    tags {") = false ->
  line_for a (nl +:+ "    }") = false ->
  (forall rest, line_for a (nl +:+ "        " +:+ dquote +:+ rest) = false) ->
  has_chunk a (Tags_lines σ m) = false.
Proof.
  intros Hopen Hclose Hentry. unfold Tags_lines.
  destruct (truthy_map m); [|done].
  rewrite !has_chunk_app, (has_chunk_entries _ _ _ Hentry).
  simpl. rewrite Hopen, Hclose. simpl.
  unfold line_for. simpl. by destruct a.
Qed.

Ltac unset_field H :=
  match type of H with
  | negb (truthy_ptr ?x) = true => destruct x eqn:?; [discriminate H|]
  end.

(** A field that is nil in the mapped struct has no line, for the fields
    printed under an [if]. *)
Lemma no_line_when_unset (σ : store) (i : Instance.t) (f : field)
  (a : string) :
  guarded f = true ->
  dst_unset f i = true ->
  attribute f = Some a ->
  has_chunk a (Instance_lines σ i) = false.
Proof.
  intros Hg Hunset Hattr.
  destruct f; simpl in Hg, Hunset, Hattr; try discriminate;
    injection Hattr as <-; unset_field Hunset;
    unfold Instance_lines; rewrite !has_chunk_app, !has_chunk_when;
    try (rewrite has_chunk_Tags_lines by reflexivity);
    repeat match goal with
           | E : _ = None |- _ => rewrite E; clear E
           end;
    unfold nl, tab, dquote; simpl; rewrite ?andb_false_r; reflexivity.
Qed.

Lemma Instance_after_unset (σ : store) (s : ec2.Instance.t) (f : field) :
  f <> F_Monitoring ->
  src_unset f s = true ->
  dst_unset f (Instance_after σ Instance.zero s) = true.
Proof.
  intros Hf Hsrc. destruct s. destruct f; simpl in *; try done;
    unset_field Hsrc; unfold profile_name; simpl; subst; done.
Qed.

(** *** From the pieces to the lines of the text *)

Lemma append_cons (c : ascii) (x y : string) :
  String c x +:+ y = String c (x +:+ y).
Proof. reflexivity. Qed.

Lemma append_nil_r (x : string) : x +:+ EmptyString = x.
Proof. induction x as [|c x IH]; [done|]. by rewrite append_cons, IH. Qed.

Lemma append_assoc_string (x y z : string) :
  (x +:+ y) +:+ z = x +:+ (y +:+ z).
Proof.
  induction x as [|c x IH]; [done|]. by rewrite !append_cons, IH.
Qed.

Lemma contains_byte_append (c : ascii) (x y : string) :
  contains_byte c (x +:+ y) = contains_byte c x || contains_byte c y.
Proof.
  induction x as [|a x IH]; [done|].
  rewrite append_cons. simpl. rewrite IH. apply orb_assoc.
Qed.

Lemma single_line_append (x y : string) :
  single_line (x +:+ y) = single_line x && single_line y.
Proof.
  unfold single_line. rewrite contains_byte_append. apply negb_orb.
Qed.

Lemma concat_cons_string (x : string) (xs : list string) :
  String.concat EmptyString (x :: xs) = x +:+ String.concat EmptyString xs.
Proof.
  destruct xs; [simpl; symmetry; apply append_nil_r|reflexivity].
Qed.

Lemma concat_app_string (xs ys : list string) :
  String.concat EmptyString (xs ++ ys)
  = String.concat EmptyString xs +:+ String.concat EmptyString ys.
Proof.
  induction xs as [|x xs IH]; [done|].
  rewrite <- app_comm_cons, !concat_cons_string, IH.
  by rewrite append_assoc_string.
Qed.

Lemma strings_Split_app (pre s : string) (c : ascii) :
  strings_Split (pre +:+ String c s) c
  = strings_Split pre c ++ strings_Split s c.
Proof.
  induction pre as [|a pre IH].
  - change (EmptyString +:+ String c s) with (String c s). simpl.
    by rewrite Ascii.eqb_refl.
  - rewrite append_cons. simpl.
    destruct (Ascii.eqb a c); [by rewrite IH|].
    rewrite IH. pose proof (strings_Split_nonempty pre c) as Hne.
    by destruct (strings_Split pre c).
Qed.

Lemma strings_Split_head (body rest : string) (c : ascii) :
  contains_byte c body = false ->
  rest = EmptyString \/ (exists r, rest = String c r) ->
  exists more, strings_Split (body +:+ rest) c = body :: more.
Proof.
  intros Hbody [->|[r ->]].
  - rewrite append_nil_r, (strings_Split_no_sep _ _ Hbody). by exists [].
  - rewrite strings_Split_app, (strings_Split_no_sep _ _ Hbody).
    by eexists.
Qed.

Lemma strings_Split_sep (s : string) (c : ascii) :
  strings_Split (String c s) c = EmptyString :: strings_Split s c.
Proof. simpl. by rewrite Ascii.eqb_refl. Qed.

(** The text of pieces that are whole lines has the bodies of the pieces
    as its lines, after one empty line. *)
Lemma text_lines_whole (chunks : list string) :
  forallb whole_line chunks = true ->
  chunks <> [] ->
  text_lines (String.concat EmptyString chunks)
  = EmptyString :: map body_of chunks.
Proof.
  induction chunks as [|chunk chunks IH]; [done|]. intros Hall _.
  apply andb_true_iff in Hall as [Hchunk Hall].
  destruct chunk as [|c body]; [done|].
  apply andb_true_iff in Hchunk as [Hc Hbody].
  apply Ascii.eqb_eq in Hc. subst c.
  unfold single_line in Hbody. apply negb_true_iff in Hbody.
  unfold text_lines in *.
  rewrite concat_cons_string, append_cons, strings_Split_sep.
  cbn [map body_of]. f_equal.
  destruct chunks as [|chunk2 chunks].
  - change (String.concat EmptyString []) with EmptyString.
    by rewrite append_nil_r, (strings_Split_no_sep _ _ Hbody).
  - specialize (IH Hall ltac:(done)).
    apply andb_true_iff in Hall as [Hchunk2 _].
    destruct chunk2 as [|c2 body2]; [done|].
    apply andb_true_iff in Hchunk2 as [Hc2 _].
    apply Ascii.eqb_eq in Hc2. subst c2.
    rewrite concat_cons_string, append_cons in *.
    rewrite strings_Split_sep in IH. injection IH as IH.
    rewrite strings_Split_app, (strings_Split_no_sep _ _ Hbody), IH.
    reflexivity.
Qed.

Lemma line_for_empty (a : string) : line_for a EmptyString = false.
Proof. unfold line_for. by destruct a. Qed.

Lemma line_for_whole (a chunk : string) :
  whole_line chunk = true -> line_for a (body_of chunk) = line_for a chunk.
Proof.
  destruct chunk as [|c body]; [done|]. intros H.
  apply andb_true_iff in H as [Hc _]. apply Ascii.eqb_eq in Hc. by subst c.
Qed.

Lemma existsb_bodies (a : string) (chunks : list string) :
  forallb whole_line chunks = true ->
  existsb (line_for a) (map body_of chunks) = existsb (line_for a) chunks.
Proof.
  induction chunks as [|x l IH]; [done|]. intros Hall.
  apply andb_true_iff in Hall as [Hx Hl].
  cbn [map existsb]. by rewrite (line_for_whole _ _ Hx), (IH Hl).
Qed.

(** On pieces that are whole lines, reading the pieces and reading the
    lines of the text agree. *)
Lemma text_has_line_whole (a : string) (chunks : list string) :
  forallb whole_line chunks = true ->
  text_has_line a (String.concat EmptyString chunks) = has_chunk a chunks.
Proof.
  intros Hall. unfold text_has_line, has_chunk.
  destruct chunks as [|chunk chunks]; [simpl; by rewrite line_for_empty|].
  rewrite (text_lines_whole _ Hall) by done.
  rewrite <- (existsb_bodies _ _ Hall).
  cbn [existsb]. by rewrite line_for_empty.
Qed.

Lemma whole_line_nl (body : string) :
  whole_line (nl +:+ body) = single_line body.
Proof. reflexivity. Qed.

Lemma single_line_quote (v : string) : single_line (quote v) = single_line v.
Proof.
  unfold quote.
  destruct (strings_HasPrefix v dquote && strings_HasSuffix v dquote);
    [done|].
  rewrite !single_line_append.
  change (single_line dquote) with true. by rewrite andb_true_r.
Qed.

Lemma single_line_join (vals : list string) :
  forallb single_line vals = true ->
  single_line (strings_Join (map quote vals) ",") = true.
Proof.
  unfold strings_Join. induction vals as [|v vals IH]; [done|].
  intros Hall. apply andb_true_iff in Hall as [Hv Hall].
  specialize (IH Hall). destruct vals as [|v2 vals].
  - simpl. by rewrite single_line_quote.
  - change (String.concat "," (map quote (v :: v2 :: vals)))
      with (quote v +:+ "," +:+ String.concat "," (map quote (v2 :: vals))).
    rewrite !single_line_append, single_line_quote, Hv, IH. reflexivity.
Qed.

Lemma joinStringSlice_result (sep : string) (src : list string) :
  (joinStringSlice sep src).2 = strings_Join (map quote src) sep.
Proof.
  unfold joinStringSlice.
  pose proof (joinStringSlice_loop [] src) as H. simpl in H.
  simpl. by rewrite H.
Qed.

Lemma Tags_entries_whole (σ : store) (l : list (option nat * option nat)) :
  forallb single_line
    (flat_map (fun kv => [print_strptr σ kv.1; print_strptr σ kv.2]) l)
  = true ->
  forallb whole_line
    (map (fun kv => nl +:+ "        " +:+ dquote +:+ print_strptr σ kv.1
                    +:+ dquote +:+ " = " +:+ dquote
                    +:+ print_strptr σ kv.2 +:+ dquote) l)
  = true.
Proof.
  induction l as [|kv l IH]; [done|]. intros Hall.
  cbn [flat_map] in Hall. rewrite forallb_app in Hall.
  apply andb_true_iff in Hall as [Hkv Hl].
  cbn [forallb] in Hkv.
  apply andb_true_iff in Hkv as [Hk Hv].
  apply andb_true_iff in Hv as [Hv _].
  cbn [map forallb]. rewrite (IH Hl), andb_true_r.
  rewrite whole_line_nl, !single_line_append, Hk, Hv. reflexivity.
Qed.

Lemma forallb_when (P : string -> bool) (c : bool) (line : string) :
  forallb P (when c line) = negb c || P line.
Proof. destruct c; simpl; [apply andb_true_r|done]. Qed.

Lemma single_line_boolptr (p : option bool) :
  single_line (print_boolptr p) = true.
Proof. by destruct p as [[|]|]. Qed.

Lemma Tags_lines_whole (σ : store)
  (m : option (gmap (option nat) (option nat))) :
  forallb single_line
    (flat_map (fun kv => [print_strptr σ kv.1; print_strptr σ kv.2])
              (range_map (default ∅ m)))
  = true ->
  forallb whole_line (Tags_lines σ m) = true.
Proof.
  intros H. unfold Tags_lines. destruct (truthy_map m); [|done].
  rewrite !forallb_app, (Tags_entries_whole _ _ H). reflexivity.
Qed.

(** When no printed string holds a newline, every piece written for an
    instance is one whole line. *)
Lemma Instance_lines_whole (σ : store) (i : Instance.t) :
  forallb single_line (printed_values σ i) = true ->
  forallb whole_line (Instance_lines σ i) = true.
Proof.
  unfold printed_values. rewrite !forallb_app. cbn [forallb].
  intros H.
  apply andb_true_iff in H as [H Hrest].
  apply andb_true_iff in H as [Hid H].
  apply andb_true_iff in H as [Himage H].
  apply andb_true_iff in H as [Htype H].
  apply andb_true_iff in H as [Hprof H].
  apply andb_true_iff in H as [Hkey H].
  apply andb_true_iff in H as [Hsubnet _].
  apply andb_true_iff in Hrest as [Hsgs Htags].
  unfold Instance_lines.
  rewrite joinStringSlice_result.
  rewrite !forallb_app, !forallb_when, (Tags_lines_whole _ _ Htags).
  cbn [forallb].
  rewrite !whole_line_nl, !single_line_append, !single_line_boolptr.
  rewrite Hid, Himage, Htype, Hprof, Hkey, Hsubnet,
    (single_line_join _ Hsgs).
  cbn. rewrite ?orb_true_r. reflexivity.
Qed.

Lemma strings_Split_lead (lead rest : string) (c : ascii) :
  contains_byte c lead = false ->
  exists seg more, strings_Split (lead +:+ rest) c = (lead +:+ seg) :: more.
Proof.
  induction lead as [|a lead IH]; intros Hlead.
  - change (EmptyString +:+ rest) with rest.
    pose proof (strings_Split_nonempty rest c) as Hne.
    destruct (strings_Split rest c) as [|seg more]; [done|].
    by exists seg, more.
  - simpl in Hlead. apply orb_false_iff in Hlead as [Ha Hlead].
    destruct (IH Hlead) as (seg & more & Hsplit).
    rewrite append_cons. simpl. rewrite Ha, Hsplit.
    by exists seg, more.
Qed.

(** A piece that opens a line with [lead] puts a line starting with [lead]
    in the text, whatever the other pieces hold. *)
Lemma text_has_line_chunk (a : string) (chunks : list string)
  (lead tail : string) :
  In (String newline (lead +:+ tail)) chunks ->
  single_line lead = true ->
  (forall t, line_for a (lead +:+ t) = true) ->
  text_has_line a (String.concat EmptyString chunks) = true.
Proof.
  intros Hin Hlead Hline.
  apply in_split in Hin as (before & after & ->).
  rewrite concat_app_string, concat_cons_string, append_cons,
    append_assoc_string.
  unfold text_has_line, text_lines. rewrite strings_Split_app.
  unfold single_line in Hlead. apply negb_true_iff in Hlead.
  destruct (strings_Split_lead lead
              (tail +:+ String.concat EmptyString after) newline Hlead)
    as (seg & more & ->).
  rewrite existsb_app. cbn [existsb]. rewrite Hline.
  by rewrite orb_true_r.
Qed.

Lemma Instance_lines_open (σ : store) (i : Instance.t) :
  forallb opens_line (Instance_lines σ i) = true.
Proof.
  assert (Htags : forallb opens_line (Tags_lines σ (Instance.Tags i)) = true).
  { unfold Tags_lines. destruct (truthy_map (Instance.Tags i)); [|done].
    rewrite !forallb_app. cbn.
    induction (range_map (default ∅ (Instance.Tags i))); [done|exact IHl]. }
  unfold Instance_lines.
  rewrite !forallb_app, !forallb_when, Htags. cbn.
  rewrite ?orb_true_r. reflexivity.
Qed.

(** A piece that is one whole line is a line of the text. *)
Lemma text_line_exact (chunks : list string) (body : string) :
  forallb opens_line chunks = true ->
  In (String newline body) chunks ->
  single_line body = true ->
  In body (text_lines (String.concat EmptyString chunks)).
Proof.
  intros Hopen Hin Hbody.
  apply in_split in Hin as (before & after & ->).
  rewrite forallb_app in Hopen. apply andb_true_iff in Hopen as [_ Hopen].
  apply andb_true_iff in Hopen as [_ Hafter].
  rewrite concat_app_string, concat_cons_string, append_cons.
  unfold text_lines. rewrite strings_Split_app.
  unfold single_line in Hbody. apply negb_true_iff in Hbody.
  destruct (strings_Split_head body (String.concat EmptyString after)
              newline Hbody) as (more & ->).
  - destruct after as [|chunk after]; [by left|]. right.
    apply andb_true_iff in Hafter as [Hchunk _].
    destruct chunk as [|c rest]; [done|].
    apply Ascii.eqb_eq in Hchunk. subst c.
    rewrite concat_cons_string, append_cons. by eexists.
  - apply in_or_app. right. by left.
Qed.

(** C1, as the code has it: when [Instance.set] runs on a new [Instance],
    every source field that is nil leaves the corresponding mapped field
    nil.  For the fields the template prints under an [if] (all but the
    image id, the instance type and the monitoring flag), and provided no
    string printed for the instance holds a newline, the text written for
    the instance then has no line for the field's attribute.  The lines
    [ami] and [instance_type] and the resource header are written for
    every instance, a nil image id, instance type or instance id being
    printed as [<nil>], and so is the line [monitoring], since
    [Instance.set] always sets the monitoring flag. *)
Theorem unset_guarded_field_not_rendered (σ : store) (s : ec2.Instance.t) :
  wf_Instance s = true ->
  exists i σ',
    Instance_set Instance.zero (Some s) σ = Done (i, None) σ'
    /\ (forall f, src_unset f s = true -> dst_unset f i = true)
    /\ (forallb single_line (printed_values σ' i) = true ->
        forall f a,
          guarded f = true ->
          src_unset f s = true ->
          attribute f = Some a ->
          text_has_line a (Instance_text σ' i) = false)
    /\ text_has_line "ami" (Instance_text σ' i) = true
    /\ text_has_line "instance_type" (Instance_text σ' i) = true
    /\ Instance.Monitoring i <> None
    /\ text_has_line "monitoring" (Instance_text σ' i) = true
    /\ (src_unset F_ImageId s = true ->
        In (tab +:+ tab +:+ "ami = " +:+ dquote +:+ "<nil>" +:+ dquote)
           (text_lines (Instance_text σ' i)))
    /\ (src_unset F_InstanceType s = true ->
        In (tab +:+ tab +:+ "instance_type = " +:+ dquote +:+ "<nil>"
                +:+ dquote)
           (text_lines (Instance_text σ' i)))
    /\ (src_unset F_InstanceId s = true ->
        In (tab +:+ "resource " +:+ dquote +:+ "aws_instance" +:+ dquote
                +:+ " " +:+ dquote +:+ "<nil>_instance" +:+ dquote +:+ " {")
           (text_lines (Instance_text σ' i))).
Proof.
  intros Hwf.
  exists (Instance_after σ Instance.zero s), (store_after σ s).
  split; [by apply Instance_set_spec|].
  assert (Hmon : forall f, src_unset f s = true -> f <> F_Monitoring).
  { intros f Hsrc ->. simpl in Hsrc. unfold wf_Instance in Hwf.
    destruct (ec2.Instance.Monitoring s); simpl in *; discriminate. }
  split; [intros f Hsrc; apply Instance_after_unset; auto|].
  split.
  { intros Hsingle f a Hg Hsrc Hattr. unfold Instance_text.
    rewrite text_has_line_whole by (by apply Instance_lines_whole).
    apply (no_line_when_unset _ _ f); [done| |done].
    apply Instance_after_unset; auto. }
  unfold Instance_text.
  split.
  { eapply (text_has_line_chunk "ami" _ (tab +:+ tab +:+ "ami = ")).
    - unfold Instance_lines. rewrite in_app_iff. left. right. left.
      reflexivity.
    - reflexivity.
    - intros t. reflexivity. }
  split.
  { eapply (text_has_line_chunk "instance_type" _
              (tab +:+ tab +:+ "instance_type = ")).
    - unfold Instance_lines. rewrite in_app_iff. left. right. right. left.
      reflexivity.
    - reflexivity.
    - intros t. reflexivity. }
  split; [done|].
  split.
  { eapply (text_has_line_chunk "monitoring" _
              (tab +:+ tab +:+ "monitoring = ")).
    - unfold Instance_lines. rewrite !in_app_iff. do 4 right. left.
      left. reflexivity.
    - reflexivity.
    - intros t. reflexivity. }
  split; [|split]; intros Hsrc;
    (apply text_line_exact;
     [apply Instance_lines_open| |reflexivity]);
    destruct s; simpl in Hsrc; unset_field Hsrc; subst;
    unfold Instance_lines; rewrite in_app_iff; left; simpl.
  - right. left. reflexivity.
  - right. right. left. reflexivity.
  - left. reflexivity.
Qed.

Lemma unset_guarded_field_not_rendered_witness :
  (exists i σ',
      Instance_set Instance.zero (Some sample_instance) sample_store
      = Done (i, None) σ'
      /\ Instance.KeyName i = None
      /\ text_has_line "key_name" (Instance_text σ' i) = false
      /\ text_has_line "ami" (Instance_text σ' i) = true)
  /\ (exists i σ',
         Instance_set Instance.zero (Some sample_no_image) sample_store
         = Done (i, None) σ'
         /\ In (tab +:+ tab +:+ "ami = " +:+ dquote +:+ "<nil>" +:+ dquote)
               (text_lines (Instance_text σ' i))).
Proof.
  split.
  - destruct (unset_guarded_field_not_rendered sample_store sample_instance)
      as (i & σ' & Hrun & Hunset & Hline & Hami & _).
    + reflexivity.
    + exists i, σ'. split; [exact Hrun|]. split; [|split; [|exact Hami]].
      * specialize (Hunset F_KeyName eq_refl). simpl in Hunset.
        by destruct (Instance.KeyName i).
      * assert (Hsingle : forallb single_line (printed_values σ' i)
                          = true).
        { vm_compute in Hrun. injection Hrun as <- <-. reflexivity. }
        apply (Hline Hsingle F_KeyName); reflexivity.
  - destruct (unset_guarded_field_not_rendered sample_store sample_no_image)
      as (i & σ' & Hrun & _ & _ & _ & _ & _ & _ & Hnil & _).
    + reflexivity.
    + exists i, σ'. split; [exact Hrun|]. apply Hnil. reflexivity.
Defined.

(** C1 as the specification states it fails: the instance
    [sample_no_image] has no image id, its mapped [ImageID] is nil, and
    the text written for it still has an [ami] line. *)
Lemma unset_field_rendered_counterexample :
  ~ (forall (σ : store) (s : ec2.Instance.t) (f : field) (i : Instance.t)
            (e : error) (σ' : store),
        Instance_set Instance.zero (Some s) σ = Done (i, e) σ' ->
        src_unset f s = true ->
        dst_unset f i = true
        /\ (forall a, attribute f = Some a ->
                      text_has_line a (Instance_text σ' i) = false)).
Proof.
  intros Hclaim.
  destruct (Hclaim sample_store sample_no_image F_ImageId
              (Instance_after sample_store Instance.zero sample_no_image)
              None (store_after sample_store sample_no_image))
    as [_ Hline].
  - vm_compute. reflexivity.
  - reflexivity.
  - specialize (Hline "ami" eq_refl). vm_compute in Hline. discriminate.
Qed.

(** Why the printed strings must be free of newlines: here a tag value
    holds one, and the text gets a [key_name] line although the key name
    is nil. *)
Example newline_in_value_adds_line :
  exists i σ',
    Instance_set Instance.zero (Some sample_injected) injecting_store
    = Done (i, None) σ'
    /\ Instance.KeyName i = None
    /\ text_has_line "key_name" (Instance_text σ' i) = true.
Proof.
  exists (Instance_after injecting_store Instance.zero sample_injected),
    (store_after injecting_store sample_injected).
  split; [by apply Instance_set_spec|]. split; [reflexivity|].
  vm_compute. reflexivity.
Qed.

(** * Further properties *)

(** ** [quote] *)

Lemma length_append_string (x y : string) :
  String.length (x +:+ y) = (String.length x + String.length y)%nat.
Proof. induction x as [|c x IH]; simpl; [done|by rewrite IH]. Qed.

Lemma HasPrefix_dquote (x : string) :
  strings_HasPrefix (dquote +:+ x) dquote = true.
Proof.
  unfold strings_HasPrefix, dquote. simpl. by destruct x.
Qed.

Lemma substring_last (x : string) (c : ascii) :
  String.substring (String.length x) 1 (x +:+ String c EmptyString)
  = String c EmptyString.
Proof. induction x as [|a x IH]; simpl; [done|exact IH]. Qed.

Lemma HasSuffix_dquote (x : string) :
  strings_HasSuffix (x +:+ dquote) dquote = true.
Proof.
  unfold strings_HasSuffix, dquote.
  rewrite length_append_string. simpl String.length.
  replace (String.length x + 1 - 1)%nat with (String.length x) by lia.
  rewrite substring_last, String.eqb_refl.
  apply andb_true_iff. split; [|done]. apply Nat.leb_le. lia.
Qed.

Lemma quote_quoted (s : string) :
  strings_HasPrefix (quote s) dquote = true
  /\ strings_HasSuffix (quote s) dquote = true.
Proof.
  unfold quote.
  destruct (strings_HasPrefix s dquote && strings_HasSuffix s dquote) eqn:E.
  - by apply andb_true_iff in E.
  - split; [apply HasPrefix_dquote|].
    replace (dquote +:+ s +:+ dquote) with ((dquote +:+ s) +:+ dquote).
    + apply HasSuffix_dquote.
    + unfold dquote. reflexivity.
Qed.

Lemma quote_idem (s : string) : quote (quote s) = quote s.
Proof.
  destruct (quote_quoted s) as [Hp Hs].
  unfold quote at 1. by rewrite Hp, Hs.
Qed.

(** X1: whatever its argument, the result of [quote] starts and ends with
    a double quote, and quoting it again changes nothing. *)
Theorem quote_idempotent (s : string) :
  strings_HasPrefix (quote s) dquote = true
  /\ strings_HasSuffix (quote s) dquote = true
  /\ quote (quote s) = quote s.
Proof.
  destruct (quote_quoted s) as [Hp Hs].
  split; [exact Hp|]. split; [exact Hs|]. apply quote_idem.
Qed.

(** X2: [quote] returns its argument unchanged exactly when the argument
    already starts and ends with a double quote (the one-byte string made
    of a double quote counts); otherwise the result is the argument
    between two double quotes, two bytes longer. *)
Theorem quote_fixed_points (s : string) :
  (quote s = s <->
   strings_HasPrefix s dquote && strings_HasSuffix s dquote = true)
  /\ (quote s <> s ->
      quote s = dquote +:+ s +:+ dquote
      /\ String.length (quote s) = (String.length s + 2)%nat)
  /\ quote dquote = dquote.
Proof.
  assert (Hwrap : strings_HasPrefix s dquote && strings_HasSuffix s dquote
                  = false ->
                  quote s = dquote +:+ s +:+ dquote).
  { intros E. unfold quote. by rewrite E. }
  assert (Hlen : strings_HasPrefix s dquote && strings_HasSuffix s dquote
                 = false ->
                 String.length (quote s) = (String.length s + 2)%nat).
  { intros E. rewrite (Hwrap E).
    rewrite !length_append_string. unfold dquote. simpl. lia. }
  split; [|split; [|reflexivity]].
  - split.
    + intros Heq.
      destruct (strings_HasPrefix s dquote && strings_HasSuffix s dquote)
        eqn:E; [done|].
      specialize (Hlen eq_refl). rewrite Heq in Hlen. lia.
    + intros E. unfold quote. by rewrite E.
  - intros Hne.
    destruct (strings_HasPrefix s dquote && strings_HasSuffix s dquote)
      eqn:E; [|exact (conj (Hwrap eq_refl) (Hlen eq_refl))].
    exfalso. apply Hne. unfold quote. by rewrite E.
Qed.

Lemma quote_fixed_points_witness :
  quote "web" = dquote +:+ "web" +:+ dquote
  /\ String.length (quote "web") = 5%nat.
Proof.
  apply (proj1 (proj2 (quote_fixed_points "web"))). discriminate.
Defined.

(** ** [joinStringSlice] again *)

Lemma joinStringSlice_eq (sep : string) (src : list string) :
  joinStringSlice sep src = (map quote src, strings_Join (map quote src) sep).
Proof.
  unfold joinStringSlice.
  pose proof (joinStringSlice_loop [] src) as H. simpl in H.
  by rewrite H.
Qed.

(** X3: [joinStringSlice] keeps the length of the caller's slice, and a
    second call on the slice it has rewritten leaves the slice as it is
    and returns the same string. *)
Theorem joinStringSlice_idempotent (sep : string) (src : list string) :
  length (joinStringSlice sep src).1 = length src
  /\ joinStringSlice sep (joinStringSlice sep src).1
     = joinStringSlice sep src.
Proof.
  rewrite !joinStringSlice_eq. simpl. rewrite length_map.
  split; [done|].
  assert (H : map quote (map quote src) = map quote src).
  { rewrite map_map. apply map_ext. apply quote_idem. }
  by rewrite H.
Qed.

(** ** [getZoneId] *)

Lemma strings_Split_segments (s : string) (sep : ascii) :
  Forall (fun seg => contains_byte sep seg = false) (strings_Split s sep).
Proof.
  induction s as [|c s IH]; simpl; [by repeat constructor|].
  destruct (Ascii.eqb c sep) eqn:E; [by constructor|].
  destruct (strings_Split s sep) as [|seg rest].
  - repeat constructor. simpl. by rewrite E.
  - inversion IH; subst. constructor; [|done]. simpl. by rewrite E.
Qed.

Lemma strings_Split_last_segment (s : string) (sep : ascii) :
  contains_byte sep (default EmptyString (last (strings_Split s sep)))
  = false.
Proof.
  pose proof (strings_Split_segments s sep) as H.
  destruct (last (strings_Split s sep)) as [seg|] eqn:E; [|done].
  rewrite Forall_forall in H. apply H. simpl.
  by apply last_Some_elem_of.
Qed.

Lemma contains_byte_app (pre name : string) (c : ascii) :
  contains_byte c (pre +:+ String c name) = true.
Proof.
  induction pre as [|a pre IH]; simpl.
  - by rewrite Ascii.eqb_refl.
  - rewrite IH. apply orb_true_r.
Qed.

Lemma getZoneId_slash (σ : store) (src : strptr) :
  contains_byte slash (aws_StringValue σ src) = true ->
  getZoneId src σ
  = Done (Some (length σ))
         (σ ++ [default EmptyString
                  (last (strings_Split (aws_StringValue σ src) slash))]).
Proof.
  intros H. unfold getZoneId, bind, StringValue. rewrite H.
  by rewrite Split_index.
Qed.

Lemma getZoneId_no_slash (σ : store) (src : strptr) :
  contains_byte slash (aws_StringValue σ src) = false ->
  getZoneId src σ = Done src σ.
Proof. intros H. unfold getZoneId, bind, StringValue. by rewrite H. Qed.

Lemma aws_StringValue_fresh (σ : store) (v : string) :
  aws_StringValue (σ ++ [v]) (Some (length σ)) = v.
Proof.
  unfold aws_StringValue. rewrite lookup_app_r; [|lia].
  by rewrite Nat.sub_diag.
Qed.

(** X4: the string [getZoneId] returns never contains a slash, so applying
    [getZoneId] to its own result returns the same pointer and allocates
    nothing; an argument without a slash (a nil pointer included) is
    returned as it is, not copied. *)
Theorem getZoneId_idempotent (σ : store) (src : strptr) :
  (contains_byte slash (aws_StringValue σ src) = false ->
   getZoneId src σ = Done src σ)
  /\ exists p σ',
       getZoneId src σ = Done p σ'
       /\ contains_byte slash (aws_StringValue σ' p) = false
       /\ getZoneId p σ' = Done p σ'.
Proof.
  split; [apply getZoneId_no_slash|].
  destruct (contains_byte slash (aws_StringValue σ src)) eqn:E.
  - eexists _, _. split; [by apply getZoneId_slash|].
    assert (H : contains_byte slash
                  (aws_StringValue
                     (σ ++ [default EmptyString
                              (last (strings_Split (aws_StringValue σ src)
                                                   slash))])
                     (Some (length σ))) = false).
    { rewrite aws_StringValue_fresh. apply strings_Split_last_segment. }
    split; [exact H|]. by apply getZoneId_no_slash.
  - exists src, σ. split; [by apply getZoneId_no_slash|].
    split; [exact E|]. by apply getZoneId_no_slash.
Qed.

Lemma getZoneId_idempotent_witness :
  getZoneId (Some 3%nat) sample_store = Done (Some 3%nat) sample_store
  /\ getZoneId None sample_store = Done None sample_store.
Proof.
  split.
  - apply (proj1 (getZoneId_idempotent sample_store (Some 3%nat))).
    reflexivity.
  - apply (proj1 (getZoneId_idempotent sample_store None)). reflexivity.
Defined.

(** X5: for a string that ends in a slash followed by a slash-free
    [name], [getZoneId] returns a pointer to a new cell holding [name];
    the new pointer differs from the argument and the argument's string
    is left as it was. *)
Theorem getZoneId_last_segment (σ : store) (src : strptr)
  (pre name : string) :
  valid_ptr σ src ->
  aws_StringValue σ src = pre +:+ String slash name ->
  contains_byte slash name = false ->
  exists p σ',
    getZoneId src σ = Done p σ'
    /\ aws_StringValue σ' p = name
    /\ p <> src
    /\ aws_StringValue σ' src = pre +:+ String slash name.
Proof.
  intros Hvalid Htext Hname.
  exists (Some (length σ)), (σ ++ [name]).
  split.
  - rewrite getZoneId_slash.
    + by rewrite Htext, (strings_Split_last _ _ _ Hname).
    + rewrite Htext. apply contains_byte_app.
  - split; [apply aws_StringValue_fresh|]. split.
    + destruct src as [a|]; [|done]. simpl in Hvalid. intros [= Heq]. lia.
    + by rewrite aws_StringValue_app.
Qed.

Lemma getZoneId_last_segment_witness :
  exists p σ',
    getZoneId (Some 0%nat) ["/hostedzone/Z2ABC"] = Done p σ'
    /\ aws_StringValue σ' p = "Z2ABC"
    /\ p <> Some 0%nat
    /\ aws_StringValue σ' (Some 0%nat) = "/hostedzone/Z2ABC".
Proof.
  apply (getZoneId_last_segment ["/hostedzone/Z2ABC"] (Some 0%nat)
           "/hostedzone" "Z2ABC").
  - simpl. lia.
  - reflexivity.
  - reflexivity.
Defined.

(** ** [Instance.set]: when it completes, and what it does to the store *)

Lemma for_range_SecurityGroups_panic
  (sgs : list (option ec2.GroupIdentifier.t)) (i : Instance.t) (σ : store) :
  forallb truthy_ptr sgs = false ->
  for_range SecurityGroups_body i sgs σ = Panic σ.
Proof.
  revert i. induction sgs as [|[g|] sgs IH]; intros i Hbad; [done| |done].
  simpl in Hbad. simpl for_range. unfold bind, SecurityGroups_body.
  simpl. unfold bind. simpl. by apply IH.
Qed.

Lemma for_range_Tags_panic (ts : list (option ec2.Tag.t)) (i : Instance.t)
  (m : gmap (option nat) (option nat)) (σ : store) :
  forallb truthy_ptr ts = false ->
  Instance.Tags i = Some m ->
  for_range Tags_body i ts σ = Panic σ.
Proof.
  revert i m. induction ts as [|[t|] ts IH]; intros i m Hbad Hm;
    [done| |done].
  simpl in Hbad. simpl for_range. unfold bind, Tags_body. simpl.
  unfold bind. rewrite Hm. simpl.
  by apply (IH _ (<[ec2.Tag.Key t := ec2.Tag.Value t]> m)).
Qed.

(** The outcome of [Instance.set] on a source that is not nil. *)
Lemma Instance_set_outcome (i : Instance.t) (s : ec2.Instance.t)
  (σ : store) :
  Instance_set i (Some s) σ
  = if wf_Instance s
    then Done (Instance_after σ i s, None) (store_after σ s)
    else Panic (store_after σ s).
Proof.
  destruct (wf_Instance s) eqn:Hwf; [by apply Instance_set_spec|].
  unfold wf_Instance in Hwf.
  destruct s as [ebs prof image id type key mon sgs sdc st subnet vpc tags].
  simpl in Hwf. unfold Instance_set, store_after, profile_name. simpl.
  destruct mon as [mon|]; simpl in Hwf.
  - destruct (forallb truthy_ptr (default [] sgs)) eqn:Hsgs; simpl in Hwf.
    + destruct prof as [[[a|]]|]; destruct sgs as [sgs|];
        destruct tags as [tags|]; simpl in *; try discriminate;
        unfold bind; simpl; rewrite ?Split_index; simpl;
        rewrite ?strings_Compare_eqb;
        rewrite ?(for_range_SecurityGroups _ _ _ Hsgs); simpl;
        erewrite for_range_Tags_panic; done.
    + destruct prof as [[[a|]]|]; destruct sgs as [sgs|];
        simpl in *; try discriminate;
        unfold bind; simpl; rewrite ?Split_index; simpl;
        rewrite ?strings_Compare_eqb;
        rewrite (for_range_SecurityGroups_panic _ _ _ Hsgs); done.
  - destruct prof as [[[a|]]|]; simpl; unfold bind; simpl;
      rewrite ?Split_index; simpl; done.
Qed.

(** X6: [Instance.set] completes, with the nil error, exactly when the
    source pointer, [src.Monitoring] and every element of
    [src.SecurityGroups] and of [src.Tags] are not nil; in every other case
    it panics. *)
Theorem Instance_set_completes_iff (i : Instance.t) (s : ec2.Instance.t)
  (σ : store) :
  (wf_Instance s = true ->
   exists i' σ', Instance_set i (Some s) σ = Done (i', None) σ')
  /\ (wf_Instance s = false ->
      exists σ', Instance_set i (Some s) σ = Panic σ')
  /\ Instance_set i None σ = Panic σ.
Proof.
  rewrite Instance_set_outcome.
  split; [|split; [|done]]; intros ->; eauto.
Qed.

Lemma Instance_set_completes_iff_witness :
  (exists i' σ',
      Instance_set Instance.zero (Some sample_instance) sample_store
      = Done (i', None) σ')
  /\ (exists σ',
         Instance_set Instance.zero (Some sample_bad_group) sample_store
         = Panic σ').
Proof.
  split.
  - apply (proj1 (Instance_set_completes_iff Instance.zero sample_instance
                    sample_store)). reflexivity.
  - apply (proj1 (proj2 (Instance_set_completes_iff Instance.zero
                           sample_bad_group sample_store))). reflexivity.
Defined.

(** X7: whether it completes or panics, [Instance.set] leaves every string
    that was allocated before the call as it was and allocates at most one
    new string (the profile name). *)
Theorem Instance_set_store_grows (i : Instance.t)
  (src : option ec2.Instance.t) (σ : store) :
  exists extra,
    final (Instance_set i src σ) = σ ++ extra
    /\ (length extra <= 1)%nat
    /\ forall p,
         valid_ptr σ p ->
         aws_StringValue (final (Instance_set i src σ)) p
         = aws_StringValue σ p.
Proof.
  assert (H : exists extra,
             final (Instance_set i src σ) = σ ++ extra
             /\ (length extra <= 1)%nat).
  { destruct src as [s|].
    - rewrite Instance_set_outcome.
      assert (Hs : exists extra, store_after σ s = σ ++ extra
                                 /\ (length extra <= 1)%nat).
      { unfold store_after. destruct (profile_name σ s) as [name|].
        - by exists [name].
        - exists []. rewrite app_nil_r. split; [done|simpl; lia]. }
      by destruct (wf_Instance s).
    - exists []. rewrite app_nil_r. split; [done|simpl; lia]. }
  destruct H as (extra & Hfinal & Hlen).
  exists extra. split; [exact Hfinal|]. split; [exact Hlen|].
  intros p Hp. rewrite Hfinal. by apply aws_StringValue_app.
Qed.

Lemma Instance_set_store_grows_witness :
  aws_StringValue
    (final (Instance_set Instance.zero (Some sample_instance) sample_store))
    (Some 1%nat)
  = "disabled".
Proof.
  destruct (Instance_set_store_grows Instance.zero (Some sample_instance)
              sample_store) as (extra & _ & _ & Hkeep).
  rewrite (Hkeep (Some 1%nat)); [reflexivity|]. simpl. lia.
Defined.

(** ** [Instance.set]: tags and security groups *)

Lemma tag_map_app (xs ys : list (option ec2.Tag.t))
  (m : gmap (option nat) (option nat)) :
  tag_map (xs ++ ys) m = tag_map ys (tag_map xs m).
Proof. unfold tag_map. apply foldl_app. Qed.

Lemma tag_map_other (ts : list (option ec2.Tag.t))
  (m : gmap (option nat) (option nat)) (k : option nat) :
  (forall u, In (Some u) ts -> ec2.Tag.Key u <> k) ->
  tag_map ts m !! k = m !! k.
Proof.
  revert m. induction ts as [|[t|] ts IH]; intros m Hk; simpl; [done| |].
  - rewrite IH.
    + apply lookup_insert_ne. apply Hk. by left.
    + intros u Hu. apply Hk. by right.
  - apply IH. intros u Hu. apply Hk. by right.
Qed.

Lemma tag_map_size (ts : list (option ec2.Tag.t))
  (m : gmap (option nat) (option nat)) :
  (size (tag_map ts m) <= size m + length ts)%nat.
Proof.
  revert m. induction ts as [|[t|] ts IH]; intros m; simpl; [lia| |].
  - specialize (IH (<[ec2.Tag.Key t := ec2.Tag.Value t]> m)).
    rewrite map_size_insert in IH.
    destruct (m !! ec2.Tag.Key t); simpl in IH; lia.
  - specialize (IH m). lia.
Qed.

(** X8: the [Tags] map that [Instance.set] builds replaces whatever the
    receiver held: under each key pointer it holds the value of the last
    source tag that carries that pointer, it has no entry for a pointer
    that no source tag carries, and it has at most as many entries as
    there are source tags. *)
Theorem Instance_set_Tags_last_wins (i : Instance.t) (s : ec2.Instance.t)
  (ts : list (option ec2.Tag.t)) (σ : store) :
  wf_Instance s = true ->
  ec2.Instance.Tags s = Some ts ->
  exists i' σ' (m : gmap (option nat) (option nat)),
    Instance_set i (Some s) σ = Done (i', None) σ'
    /\ Instance.Tags i' = Some m
    /\ (forall pre t post,
           ts = pre ++ Some t :: post ->
           (forall u, In (Some u) post -> ec2.Tag.Key u <> ec2.Tag.Key t) ->
           m !! ec2.Tag.Key t = Some (ec2.Tag.Value t))
    /\ (forall k,
           (forall u, In (Some u) ts -> ec2.Tag.Key u <> k) ->
           m !! k = None)
    /\ (size m <= length ts)%nat.
Proof.
  intros Hwf Hts.
  exists (Instance_after σ i s), (store_after σ s), (tag_map ts ∅).
  split; [by apply Instance_set_spec|].
  split; [unfold Instance_after; simpl; by rewrite Hts|].
  split; [|split].
  - intros pre t post -> Hpost.
    rewrite tag_map_app. simpl.
    rewrite (tag_map_other _ _ _ Hpost). apply lookup_insert_eq.
  - intros k Hk. by rewrite (tag_map_other _ _ _ Hk).
  - pose proof (tag_map_size ts ∅) as H. by rewrite map_size_empty in H.
Qed.

Lemma Instance_set_Tags_last_wins_witness :
  exists i' σ' (m : gmap (option nat) (option nat)),
    Instance_set Instance.zero (Some sample_retagged) sample_store
    = Done (i', None) σ'
    /\ Instance.Tags i' = Some m
    /\ m !! Some 5%nat = Some (Some 8%nat)
    /\ m !! Some 7%nat = None
    /\ (size m <= 2)%nat.
Proof.
  destruct (Instance_set_Tags_last_wins Instance.zero sample_retagged
              [Some (ec2.Tag.mk (Some 5%nat) (Some 6%nat));
               Some (ec2.Tag.mk (Some 5%nat) (Some 8%nat))] sample_store)
    as (i' & σ' & m & Hrun & Hm & Hlast & Hnone & Hsize).
  - reflexivity.
  - reflexivity.
  - exists i', σ', m. split; [exact Hrun|]. split; [exact Hm|].
    split; [|split; [|exact Hsize]].
    + apply (Hlast [Some (ec2.Tag.mk (Some 5%nat) (Some 6%nat))]
                   (ec2.Tag.mk (Some 5%nat) (Some 8%nat)) []).
      * reflexivity.
      * intros u [].
    + apply Hnone. intros u [H|[H|[]]]; inversion H; subst; discriminate.
Defined.

(** X9: unlike the other fields, which it overwrites, [Instance.set]
    appends to the receiver's [SecurityGroups]: the group names the
    receiver held stay in front, followed by the [GroupName] pointers of
    the source groups in their order.  Setting the same instance twice on
    one receiver therefore lists every group twice. *)
Theorem Instance_set_appends_SecurityGroups (i : Instance.t)
  (s : ec2.Instance.t) (sgs : list ec2.GroupIdentifier.t) (σ : store) :
  wf_Instance s = true ->
  ec2.Instance.SecurityGroups s = Some (map Some sgs) ->
  sgs <> [] ->
  exists i1 σ1 i2 σ2,
    Instance_set i (Some s) σ = Done (i1, None) σ1
    /\ Instance.SecurityGroups i1
       = Some (default [] (Instance.SecurityGroups i)
               ++ map ec2.GroupIdentifier.GroupName sgs)
    /\ Instance_set i1 (Some s) σ1 = Done (i2, None) σ2
    /\ Instance.SecurityGroups i2
       = Some (default [] (Instance.SecurityGroups i)
               ++ map ec2.GroupIdentifier.GroupName sgs
               ++ map ec2.GroupIdentifier.GroupName sgs).
Proof.
  intros Hwf Hsgs Hne.
  assert (Hnames : forall old,
             group_names old (Some (map Some sgs))
             = Some (default [] old
                     ++ map ec2.GroupIdentifier.GroupName sgs)).
  { intros old. destruct sgs as [|g sgs]; [done|]. simpl.
    by rewrite map_map. }
  exists (Instance_after σ i s), (store_after σ s),
    (Instance_after (store_after σ s) (Instance_after σ i s) s),
    (store_after (store_after σ s) s).
  split; [by apply Instance_set_spec|].
  split; [unfold Instance_after; simpl; by rewrite Hsgs, Hnames|].
  split; [by apply Instance_set_spec|].
  unfold Instance_after. simpl. rewrite Hsgs, !Hnames. simpl.
  by rewrite <- app_assoc.
Qed.

Lemma Instance_set_appends_SecurityGroups_witness :
  exists i1 σ1 i2 σ2,
    Instance_set Instance.zero (Some sample_instance) sample_store
    = Done (i1, None) σ1
    /\ Instance.SecurityGroups i1 = Some [Some 9%nat]
    /\ Instance_set i1 (Some sample_instance) σ1 = Done (i2, None) σ2
    /\ Instance.SecurityGroups i2 = Some [Some 9%nat; Some 9%nat].
Proof.
  apply (Instance_set_appends_SecurityGroups Instance.zero sample_instance
           [ec2.GroupIdentifier.mk (Some 9%nat)] sample_store).
  - reflexivity.
  - reflexivity.
  - discriminate.
Defined.

(** ** [Instances.set]: composition, frame and failure *)

Lemma for_range_app {S A B : Type} (body : B -> A -> Comp S B)
  (xs ys : list A) (acc : B) (s : S) :
  for_range body acc (xs ++ ys) s
  = bind (for_range body acc xs) (fun acc' => for_range body acc' ys) s.
Proof.
  revert acc s. induction xs as [|x xs IH]; intros acc s; [done|].
  simpl. unfold bind in *. destruct (body acc x s); [|done|done].
  apply IH.
Qed.

(** X10: calling [Instances.set] on one slice and then on another gives the
    same outcome as one call on the two slices put end to end, and a call
    with a nil slice changes nothing; so how the provider groups instances
    into reservations has no effect on the collection. *)
Theorem Instances_set_composes (acc : Instances)
  (l1 l2 : list (option ec2.Instance.t))
  (src : option (list (option ec2.Instance.t))) (σ : store) :
  bind (Instances_set acc (Some l1)) (fun a => Instances_set a (Some l2)) σ
  = Instances_set acc (Some (l1 ++ l2)) σ
  /\ bind (Instances_set acc None) (fun a => Instances_set a src) σ
     = Instances_set acc src σ
  /\ bind (Instances_set acc src) (fun a => Instances_set a None) σ
     = Instances_set acc src σ.
Proof.
  split; [|split].
  - simpl. by rewrite for_range_app.
  - reflexivity.
  - unfold bind. by destruct (Instances_set acc src σ).
Qed.

Lemma Instances_set_body_frame (acc : Instances) (v : option ec2.Instance.t)
  (σ : store) (r : Instances) (σ1 : store) :
  Instances_set_body acc v σ = Done r σ1 ->
  exists new extra,
    r = acc ++ new /\ (length new <= 1)%nat /\ σ1 = σ ++ extra.
Proof.
  destruct v as [s|]; [|done].
  unfold Instances_set_body, bind. simpl.
  destruct (ec2.Instance.State s) as [st|]; [|done]. simpl.
  destruct (Z.eqb (aws_Int64Value (ec2.InstanceState.Code st)) 48).
  - intros [= <- <-]. exists [], []. rewrite !app_nil_r.
    repeat split; simpl; lia.
  - rewrite Instance_set_outcome.
    destruct (wf_Instance s); [|done]. simpl. intros [= <- <-].
    exists [Instance_after σ Instance.zero s].
    unfold store_after. destruct (profile_name σ s) as [name|].
    + exists [name]. repeat split; simpl; lia.
    + exists []. rewrite app_nil_r. repeat split; simpl; lia.
Qed.

Lemma Instances_set_loop_frame (l : list (option ec2.Instance.t))
  (acc : Instances) (σ : store) (r : Instances) (σ' : store) :
  for_range Instances_set_body acc l σ = Done r σ' ->
  exists new extra,
    r = acc ++ new /\ (length new <= length l)%nat /\ σ' = σ ++ extra.
Proof.
  revert acc σ r σ'. induction l as [|v l IH]; intros acc σ r σ' Hrun.
  - simpl in Hrun. injection Hrun as <- <-.
    exists [], []. rewrite !app_nil_r. repeat split; simpl; lia.
  - simpl in Hrun. unfold bind in Hrun.
    destruct (Instances_set_body acc v σ) as [r1 σ1| |] eqn:Hbody;
      [|done..].
    destruct (Instances_set_body_frame _ _ _ _ _ Hbody)
      as (new1 & extra1 & -> & Hlen1 & ->).
    destruct (IH _ _ _ _ Hrun) as (new2 & extra2 & -> & Hlen2 & ->).
    exists (new1 ++ new2), (extra1 ++ extra2).
    rewrite !app_assoc. split; [done|]. split; [|done].
    rewrite length_app. simpl. lia.
Qed.

(** X11: when [Instances.set] returns, the collection it was given is a
    prefix of the result, at most one element was added per source
    instance, and every string allocated before the call is unchanged. *)
Theorem Instances_set_frame (acc : Instances)
  (l : list (option ec2.Instance.t)) (σ : store) (r : Instances)
  (σ' : store) :
  Instances_set acc (Some l) σ = Done r σ' ->
  exists new,
    r = acc ++ new
    /\ (length new <= length l)%nat
    /\ forall p, valid_ptr σ p -> aws_StringValue σ' p = aws_StringValue σ p.
Proof.
  intros Hrun.
  destruct (Instances_set_loop_frame _ _ _ _ _ Hrun)
    as (new & extra & -> & Hlen & ->).
  exists new. split; [done|]. split; [done|].
  intros p Hp. by apply aws_StringValue_app.
Qed.

Lemma Instances_set_frame_witness :
  exists new,
    [Instance.zero] ++ [Instance_after sample_store Instance.zero
                          sample_no_image]
    = [Instance.zero] ++ new
    /\ (length new <= 2)%nat
    /\ aws_StringValue sample_store (Some 1%nat) = "disabled".
Proof.
  destruct (Instances_set_frame [Instance.zero]
              [Some sample_terminated; Some sample_no_image] sample_store
              ([Instance.zero]
               ++ [Instance_after sample_store Instance.zero sample_no_image])
              sample_store)
    as (new & Hnew & Hlen & Hkeep).
  - vm_compute. reflexivity.
  - exists new. split; [exact Hnew|]. split; [exact Hlen|].
    apply (Hkeep (Some 1%nat)). simpl. lia.
Defined.

(** X12: [Instances.set] panics, and so hands nothing back, as soon as it
    meets a nil element or an element whose [State] is nil, whatever was
    mapped before it and whatever follows. *)
Theorem Instances_set_nil_State_panics (acc : Instances)
  (pre post : list (option ec2.Instance.t)) (v : option ec2.Instance.t)
  (σ : store) :
  forallb valid_Instance pre = true ->
  has_state v = false ->
  exists σ', Instances_set acc (Some (pre ++ v :: post)) σ = Panic σ'.
Proof.
  intros Hpre Hv. simpl. rewrite for_range_app. unfold bind.
  destruct (Instances_set_loop pre acc σ Hpre) as (new & σ1 & -> & _).
  simpl. unfold bind.
  assert (Hbody : Instances_set_body (acc ++ new) v σ1 = Panic σ1).
  { destruct v as [s|]; [|done].
    unfold has_state, state_code in Hv.
    unfold Instances_set_body, bind. simpl.
    by destruct (ec2.Instance.State s). }
  rewrite Hbody. eauto.
Qed.

Lemma Instances_set_nil_State_panics_witness :
  exists σ',
    Instances_set [] (Some [Some sample_instance; None; Some sample_no_image])
      sample_store
    = Panic σ'.
Proof.
  apply (Instances_set_nil_State_panics [] [Some sample_instance]
           [Some sample_no_image] None sample_store); reflexivity.
Defined.

(** ** [GetInstances]: calls, output and termination *)

Lemma Reservations_loop_frame (rs : list (option ec2.Reservation.t))
  (acc : Instances) (σ : store) (r : Instances) (σ' : store) :
  for_range Reservations_body acc rs σ = Done r σ' ->
  exists extra, σ' = σ ++ extra.
Proof.
  revert acc σ. induction rs as [|rsv rs IH]; intros acc σ Hrun.
  - simpl in Hrun. injection Hrun as <- <-. exists []. by rewrite app_nil_r.
  - simpl in Hrun. unfold bind in Hrun.
    destruct (Reservations_body acc rsv σ) as [r1 σ1| |] eqn:Hbody;
      [|done..].
    assert (H1 : exists extra1, σ1 = σ ++ extra1).
    { destruct rsv as [x|]; [|done].
      unfold Reservations_body, bind in Hbody. simpl in Hbody.
      destruct (ec2.Reservation.Instances x) as [l|]; simpl in Hbody.
      - destruct (Instances_set_loop_frame _ _ _ _ _ Hbody)
          as (new & extra & _ & _ & ->). by exists extra.
      - injection Hbody as <- <-. exists []. by rewrite app_nil_r. }
    destruct H1 as (extra1 & ->).
    destruct (IH _ _ Hrun) as (extra2 & ->).
    exists (extra1 ++ extra2). by rewrite app_assoc.
Qed.

Lemma valid_ptr_app (σ extra : store) (p : option nat) :
  valid_ptr σ p -> valid_ptr (σ ++ extra) p.
Proof.
  destruct p as [a|]; [|done]. simpl. rewrite length_app. lia.
Qed.

Section FetchEffects.

Context {conn : Type}.

Variable DescribeInstances :
  ec2.DescribeInstancesInput.t -> conn ->
  option ec2.DescribeInstancesOutput.t * error * conn.

Lemma GetInstances_loop_effects c token pages c' :
  serves DescribeInstances c token pages c' ->
  forall fuel acc (w : world conn) (σ0 extra : store),
    remote w = c ->
    strs w = σ0 ++ extra ->
    forallb valid_page pages = true ->
    Forall (fun o => valid_ptr σ0 (ec2.DescribeInstancesOutput.NextToken o))
           pages ->
    (length pages <= fuel)%nat ->
    exists r w',
      GetInstances_loop DescribeInstances fuel
        (ec2.DescribeInstancesInput.mk token) acc w
      = Done r w'
      /\ history w' = history w ++ repeat None (length pages)
      /\ stdout w' = stdout w ++ token_lines σ0 pages
      /\ remote w' = c'.
Proof.
  induction 1 as [c token o c' Hcall Hlast
                 |c token o c' t os c'' Hcall Hnext Hrest IH];
    intros fuel acc w σ0 extra Hw Hstrs Hvalid Htokens Hfuel;
    (destruct fuel as [|fuel]; [simpl in Hfuel; lia|]);
    simpl in Hvalid; apply andb_true_iff in Hvalid as [Hpage Hpages];
    unfold valid_page in Hpage; apply andb_true_iff in Hpage as [Hrs Hinsts];
    destruct (Reservations_loop _ acc (strs w) Hrs Hinsts)
      as (new1 & σ1 & Hrun1 & _);
    destruct (Reservations_loop_frame _ _ _ _ _ Hrun1) as (extra1 & Hσ1);
    simpl; unfold bind, call; rewrite Hw, Hcall; simpl;
    unfold on_store at 1; simpl; rewrite Hrun1.
  - rewrite Hlast. simpl. eexists _, _. split; [reflexivity|].
    simpl. unfold token_lines. simpl. rewrite ?Hlast, ?app_nil_r. done.
  - rewrite Hnext. simpl.
    set (w1 := mkWorld σ1 _ _ _).
    inversion Htokens as [|? ? Htok Htoks]; subst.
    destruct (IH fuel (acc ++ new1) w1 σ0 (extra ++ extra1) eq_refl)
      as (r & w' & Hrun2 & Hhist & Hout & Hc); [| done | done | |].
    + simpl. by rewrite Hstrs, <- app_assoc.
    + simpl in Hfuel. lia.
    + exists r, w'. split; [exact Hrun2|].
      split; [|split; [|exact Hc]].
      * rewrite Hhist. simpl. by rewrite <- app_assoc.
      * assert (Hval : aws_StringValue (strs w ++ extra1) (Some t)
                       = aws_StringValue σ0 (Some t)).
        { rewrite Hstrs, <- app_assoc. apply aws_StringValue_app.
          by rewrite <- Hnext. }
        unfold aws_StringValue in Hval.
        rewrite Hout. simpl. unfold token_lines at 2. simpl.
        rewrite ?Hnext, Hval. by rewrite <- app_assoc.
Qed.

(** X13: a successful fetch of [N] pages makes exactly [N] calls to
    [DescribeInstances], leaves the provider in the state after the last
    answer, and prints on standard output the continuation token of every
    page that has one, each on a line of its own, in the order of the
    pages. *)
Theorem GetInstances_effects
  (pages : list ec2.DescribeInstancesOutput.t) (c' : conn) (w : world conn)
  (fuel : nat) :
  serves DescribeInstances (remote w) None pages c' ->
  forallb valid_page pages = true ->
  Forall (fun o => valid_ptr (strs w)
                     (ec2.DescribeInstancesOutput.NextToken o)) pages ->
  (length pages <= fuel)%nat ->
  exists r w',
    GetInstances DescribeInstances fuel w = Done r w'
    /\ history w' = history w ++ repeat None (length pages)
    /\ stdout w' = stdout w ++ token_lines (strs w) pages
    /\ remote w' = c'.
Proof.
  intros Hserves Hvalid Htokens Hfuel.
  apply (GetInstances_loop_effects _ _ _ _ Hserves fuel [] w (strs w) []);
    try done.
  by rewrite app_nil_r.
Qed.

(** X14: [GetInstances] has no bound of its own on the number of pages.
    Against a provider that answers every request with a page carrying a
    continuation token, a run allowed [fuel] iterations makes [fuel] calls
    and has not returned. *)
Theorem GetInstances_never_stops (fuel : nat) (w : world conn) :
  (forall opt c,
      exists o t c',
        DescribeInstances opt c = (Some o, None, c')
        /\ ec2.DescribeInstancesOutput.NextToken o = Some t
        /\ valid_page o = true) ->
  exists w',
    GetInstances DescribeInstances fuel w = Exhausted w'
    /\ history w' = history w ++ repeat None fuel.
Proof.
  intros Hmore. unfold GetInstances.
  generalize (ec2.DescribeInstancesInput.mk None) as opt.
  generalize (@nil Instance.t) as acc.
  revert w. induction fuel as [|fuel IH]; intros w acc opt.
  - exists w. simpl. by rewrite app_nil_r.
  - destruct (Hmore opt (remote w)) as (o & t & c' & Hcall & Hnext & Hpage).
    unfold valid_page in Hpage. apply andb_true_iff in Hpage as [Hrs Hinsts].
    destruct (Reservations_loop _ acc (strs w) Hrs Hinsts)
      as (new1 & σ1 & Hrun1 & _).
    simpl. unfold bind, call. rewrite Hcall. simpl.
    unfold on_store at 1. simpl. rewrite Hrun1, Hnext. simpl.
    match goal with
    | |- context [GetInstances_loop _ fuel ?opt' ?acc' ?w1] =>
        destruct (IH w1 acc' opt') as (w' & Hrun & Hhist)
    end.
    exists w'. split; [exact Hrun|].
    rewrite Hhist. simpl. by rewrite <- app_assoc.
Qed.

End FetchEffects.

Lemma GetInstances_effects_witness :
  exists r w',
    GetInstances scripted_DescribeInstances 2
      (mkWorld sample_store [] [(Some sample_page1, None);
                                (Some sample_page2, None)] [])
    = Done r w'
    /\ history w' = [None; None]
    /\ stdout w' = ["default" +:+ nl]
    /\ remote w' = [].
Proof.
  apply (GetInstances_effects scripted_DescribeInstances
           [sample_page1; sample_page2] []
           (mkWorld sample_store [] [(Some sample_page1, None);
                                     (Some sample_page2, None)] []) 2).
  - eapply serves_more; [reflexivity|reflexivity|].
    eapply serves_last; reflexivity.
  - reflexivity.
  - repeat constructor; simpl; lia.
  - simpl. lia.
Defined.

Lemma GetInstances_never_stops_witness :
  exists w',
    GetInstances endless_DescribeInstances 7 (mkWorld sample_store [] tt [])
    = Exhausted w'
    /\ history w' = repeat None 7.
Proof.
  apply (GetInstances_never_stops endless_DescribeInstances 7
           (mkWorld sample_store [] tt [])).
  intros opt c. exists sample_page1, 9%nat, c. repeat split.
Defined.

(** ** The template: which lines are written *)

Lemma has_chunk_tags (σ : store)
  (m : option (gmap (option nat) (option nat))) :
  has_chunk "tags" (Tags_lines σ m) = truthy_map m.
Proof.
  unfold Tags_lines. destruct (truthy_map m); [|done].
  unfold nl. reflexivity.
Qed.

(** Which pieces the template writes for the optional attributes. *)
Lemma optional_chunk_iff_set (σ : store) (i : Instance.t) :
  has_chunk "ebs_optimized" (Instance_lines σ i)
  = truthy_ptr (Instance.EbsOptimized i)
  /\ has_chunk "iam_instance_profile" (Instance_lines σ i)
     = truthy_ptr (Instance.IamInstanceProfile i)
  /\ has_chunk "key_name" (Instance_lines σ i)
     = truthy_ptr (Instance.KeyName i)
  /\ has_chunk "monitoring" (Instance_lines σ i)
     = truthy_ptr (Instance.Monitoring i)
  /\ has_chunk "source_dest_check" (Instance_lines σ i)
     = truthy_ptr (Instance.SourceDestCheck i)
  /\ has_chunk "subnet_id" (Instance_lines σ i)
     = truthy_ptr (Instance.SubnetID i)
  /\ has_chunk "vpc_security_group_ids" (Instance_lines σ i)
     = truthy_slice (Instance.SecurityGroups i)
  /\ has_chunk "tags" (Instance_lines σ i) = truthy_map (Instance.Tags i)
  /\ (Instance.EbsOptimized i = Some false ->
      In (nl +:+ tab +:+ tab +:+ "ebs_optimized = false")
         (Instance_lines σ i))
  /\ (Instance.Tags i = Some ∅ ->
      has_chunk "tags" (Instance_lines σ i) = false).
Proof.
  assert (Htags : has_chunk "tags" (Instance_lines σ i)
                  = truthy_map (Instance.Tags i)).
  { unfold Instance_lines. rewrite !has_chunk_app, !has_chunk_when.
    rewrite has_chunk_tags. unfold nl, tab, dquote. simpl.
    rewrite ?andb_false_r, ?orb_false_r. reflexivity. }
  repeat split;
    try (unfold Instance_lines; rewrite !has_chunk_app, !has_chunk_when;
         rewrite has_chunk_Tags_lines by reflexivity;
         unfold nl, tab, dquote; simpl;
         rewrite ?andb_false_r, ?andb_true_r, ?orb_false_r; reflexivity).
  - exact Htags.
  - intros Hebs. unfold Instance_lines. rewrite Hebs, !in_app_iff.
    right. left. simpl. by left.
  - intros Hm. rewrite Htags, Hm. reflexivity.
Qed.


(** X15: provided no string printed for the instance holds a newline, the
    text the template writes for it has the line of an optional attribute
    exactly when the field is set: a pointer that is not nil (a pointer to
    [false] too, which gives the line [ebs_optimized = false]), a
    security-group slice that is not empty, a tag map that is not empty
    (a map that is allocated but empty gives no [tags] block). *)
Theorem optional_line_iff_set (σ : store) (i : Instance.t) :
  forallb single_line (printed_values σ i) = true ->
  text_has_line "ebs_optimized" (Instance_text σ i)
  = truthy_ptr (Instance.EbsOptimized i)
  /\ text_has_line "iam_instance_profile" (Instance_text σ i)
     = truthy_ptr (Instance.IamInstanceProfile i)
  /\ text_has_line "key_name" (Instance_text σ i)
     = truthy_ptr (Instance.KeyName i)
  /\ text_has_line "monitoring" (Instance_text σ i)
     = truthy_ptr (Instance.Monitoring i)
  /\ text_has_line "source_dest_check" (Instance_text σ i)
     = truthy_ptr (Instance.SourceDestCheck i)
  /\ text_has_line "subnet_id" (Instance_text σ i)
     = truthy_ptr (Instance.SubnetID i)
  /\ text_has_line "vpc_security_group_ids" (Instance_text σ i)
     = truthy_slice (Instance.SecurityGroups i)
  /\ text_has_line "tags" (Instance_text σ i)
     = truthy_map (Instance.Tags i)
  /\ (Instance.EbsOptimized i = Some false ->
      In (tab +:+ tab +:+ "ebs_optimized = false")
         (text_lines (Instance_text σ i)))
  /\ (Instance.Tags i = Some ∅ ->
      text_has_line "tags" (Instance_text σ i) = false).
Proof.
  intros Hsingle.
  pose proof (Instance_lines_whole _ _ Hsingle) as Hwhole.
  destruct (optional_chunk_iff_set σ i)
    as (H1 & H2 & H3 & H4 & H5 & H6 & H7 & H8 & H9 & H10).
  unfold Instance_text. rewrite !(text_has_line_whole _ _ Hwhole).
  repeat (split; [assumption|]). split; [|exact H10].
  intros Hebs. apply text_line_exact.
  - apply Instance_lines_open.
  - exact (H9 Hebs).
  - reflexivity.
Qed.

Lemma optional_line_iff_set_witness :
  In (tab +:+ tab +:+ "ebs_optimized = false")
     (text_lines
        (Instance_text sample_store
           (Instance.with_EbsOptimized (Some false) Instance.zero)))
  /\ text_has_line "key_name"
       (Instance_text sample_store
          (Instance.with_EbsOptimized (Some false) Instance.zero))
     = false
  /\ text_has_line "tags"
       (Instance_text sample_store
          (Instance.with_Tags (Some ∅) Instance.zero))
     = false.
Proof.
  destruct (optional_line_iff_set sample_store
              (Instance.with_EbsOptimized (Some false) Instance.zero))
    as (_ & _ & Hkey & _ & _ & _ & _ & _ & Hebs & _); [reflexivity|].
  destruct (optional_line_iff_set sample_store
              (Instance.with_Tags (Some ∅) Instance.zero))
    as (_ & _ & _ & _ & _ & _ & _ & _ & _ & Htags); [reflexivity|].
  split; [exact (Hebs eq_refl)|]. split; [exact Hkey|exact (Htags eq_refl)].
Defined.

(** X16: for an instance with security groups the template writes the line
    [vpc_security_group_ids = [...]] whose content is the group names,
    each put between double quotes unless it already is, separated by
    commas, in the order of the slice; a nil group name is written as an
    empty quoted string. *)
Theorem security_groups_line (σ : store) (i : Instance.t)
  (sg : option nat) (sgs : list (option nat)) :
  Instance.SecurityGroups i = Some (sg :: sgs) ->
  In (nl +:+ "    vpc_security_group_ids = ["
         +:+ strings_Join
               (map (fun p => quote (aws_StringValue σ p)) (sg :: sgs)) ","
         +:+ "]")
     (Instance_lines σ i)
  /\ quote (aws_StringValue σ None) = dquote +:+ dquote.
Proof.
  intros Hsgs. split; [|reflexivity].
  unfold Instance_lines. rewrite Hsgs.
  rewrite joinStringSlice_eq. unfold aws_StringValueSlice.
  rewrite map_map, !in_app_iff.
  do 7 right. left. simpl. by left.
Qed.

Lemma security_groups_line_witness :
  In (nl +:+ "    vpc_security_group_ids = [" +:+ dquote +:+ "default"
         +:+ dquote +:+ "," +:+ dquote +:+ dquote +:+ "]")
     (Instance_lines sample_store
        (Instance.with_SecurityGroups (Some [Some 9%nat; None])
           Instance.zero)).
Proof.
  apply (security_groups_line sample_store
           (Instance.with_SecurityGroups (Some [Some 9%nat; None])
              Instance.zero) (Some 9%nat) [None]).
  reflexivity.
Defined.


(** ** [setVPCAttribute] and [GetVPCs] *)

Section VPCProperties.

Context {conn : Type}.

Variable DescribeVpcs :
  ec2.DescribeVpcsInput.t -> conn ->
  option ec2.DescribeVpcsOutput.t * error * conn.

Variable DescribeVpcClassicLink :
  ec2.DescribeVpcClassicLinkInput.t -> conn ->
  option ec2.DescribeVpcClassicLinkOutput.t * error * conn.

Variable DescribeVpcClassicLinkDnsSupport :
  ec2.DescribeVpcClassicLinkDnsSupportInput.t -> conn ->
  option ec2.DescribeVpcClassicLinkDnsSupportOutput.t * error * conn.

Variable DescribeVpcAttribute :
  ec2.DescribeVpcAttributeInput.t -> conn ->
  option ec2.DescribeVpcAttributeOutput.t * error * conn.

Context {Tags : Type}.
Variable Tags_zero : Tags.
Variable setTags : Tags -> option (list (option ec2.Tag.t)) -> Comp store Tags.

(** X17: the two lookup loops of [setVPCAttribute] compare VPC ids by
    their text, not by pointer, and stop at the first entry whose id reads
    like the VPC's: that entry's flag is copied, entries after it are never
    looked at (they may be nil), and when no entry matches the VPC is left
    as it is. *)
Theorem scan_first_match (vpc : VPC.t Tags) (σ : store) :
  (forall (pre : list ec2.VpcClassicLink.t) (e : ec2.VpcClassicLink.t)
          (post : list (option ec2.VpcClassicLink.t)),
      (forall x, In x pre ->
                 aws_StringValue σ (ec2.VpcClassicLink.VpcId x)
                 <> aws_StringValue σ (VPC.VPCId vpc)) ->
      aws_StringValue σ (ec2.VpcClassicLink.VpcId e)
      = aws_StringValue σ (VPC.VPCId vpc) ->
      classicLink_scan vpc (map Some pre ++ Some e :: post) σ
      = Done (VPC.with_EnableClassicLink
                (ec2.VpcClassicLink.ClassicLinkEnabled e) vpc) σ)
  /\ (forall (all : list ec2.VpcClassicLink.t),
         (forall x, In x all ->
                    aws_StringValue σ (ec2.VpcClassicLink.VpcId x)
                    <> aws_StringValue σ (VPC.VPCId vpc)) ->
         classicLink_scan vpc (map Some all) σ = Done vpc σ)
  /\ (forall (pre : list ec2.ClassicLinkDnsSupport.t)
             (e : ec2.ClassicLinkDnsSupport.t)
             (post : list (option ec2.ClassicLinkDnsSupport.t)),
         (forall x, In x pre ->
                    aws_StringValue σ (ec2.ClassicLinkDnsSupport.VpcId x)
                    <> aws_StringValue σ (VPC.VPCId vpc)) ->
         aws_StringValue σ (ec2.ClassicLinkDnsSupport.VpcId e)
         = aws_StringValue σ (VPC.VPCId vpc) ->
         classicLinkDnsSupport_scan vpc (map Some pre ++ Some e :: post) σ
         = Done (VPC.with_EnableClassicLinkDnsSupport
                   (ec2.ClassicLinkDnsSupport.ClassicLinkDnsSupported e) vpc)
                σ)
  /\ (forall (all : list ec2.ClassicLinkDnsSupport.t),
         (forall x, In x all ->
                    aws_StringValue σ (ec2.ClassicLinkDnsSupport.VpcId x)
                    <> aws_StringValue σ (VPC.VPCId vpc)) ->
         classicLinkDnsSupport_scan vpc (map Some all) σ = Done vpc σ).
Proof.
  split; [|split; [|split]].
  - intros pre e post Hpre He. induction pre as [|x pre IH]; simpl.
    + unfold bind, StringValue. simpl. by rewrite He, String.eqb_refl.
    + unfold bind, StringValue. simpl.
      assert (Hx := Hpre x (or_introl eq_refl)).
      apply String.eqb_neq in Hx. rewrite Hx.
      apply IH. intros y Hy. apply Hpre. by right.
  - intros all Hall. induction all as [|x all IH]; simpl; [done|].
    unfold bind, StringValue. simpl.
    assert (Hx := Hall x (or_introl eq_refl)).
    apply String.eqb_neq in Hx. rewrite Hx.
    apply IH. intros y Hy. apply Hall. by right.
  - intros pre e post Hpre He. induction pre as [|x pre IH]; simpl.
    + unfold bind, StringValue. simpl. by rewrite He, String.eqb_refl.
    + unfold bind, StringValue. simpl.
      assert (Hx := Hpre x (or_introl eq_refl)).
      apply String.eqb_neq in Hx. rewrite Hx.
      apply IH. intros y Hy. apply Hpre. by right.
  - intros all Hall. induction all as [|x all IH]; simpl; [done|].
    unfold bind, StringValue. simpl.
    assert (Hx := Hall x (or_introl eq_refl)).
    apply String.eqb_neq in Hx. rewrite Hx.
    apply IH. intros y Hy. apply Hall. by right.
Qed.

Lemma described_by_scans (v : ec2.Vpc.t) (vpc : VPC.t Tags)
  (cls : list ec2.VpcClassicLink.t) (ds : list ec2.ClassicLinkDnsSupport.t)
  (σ : store) :
  (exists vpc', classicLink_scan vpc (map Some cls) σ = Done vpc' σ
                /\ (described_by v vpc -> described_by v vpc'))
  /\ (exists vpc', classicLinkDnsSupport_scan vpc (map Some ds) σ
                   = Done vpc' σ
                   /\ (described_by v vpc -> described_by v vpc')).
Proof.
  split.
  - induction cls as [|x cls IH]; simpl; [by exists vpc|].
    unfold bind, StringValue. simpl.
    destruct (String.eqb _ _); [|exact IH].
    eexists. split; [reflexivity|]. by destruct vpc.
  - induction ds as [|x ds IH]; simpl; [by exists vpc|].
    unfold bind, StringValue. simpl.
    destruct (String.eqb _ _); [|exact IH].
    eexists. split; [reflexivity|]. by destruct vpc.
Qed.

Section Success.

Hypothesis attribute_ok :
  forall input c,
    exists o h d c',
      DescribeVpcAttribute input c = (Some o, None, c')
      /\ ec2.DescribeVpcAttributeOutput.EnableDnsHostnames o = Some h
      /\ ec2.DescribeVpcAttributeOutput.EnableDnsSupport o = Some d.

Hypothesis setTags_ok :
  forall t src σ, exists t' σ', setTags t src σ = Done t' σ'.

Lemma setVPCAttribute_success (v : ec2.Vpc.t) (vpc : VPC.t Tags)
  (cls : list ec2.VpcClassicLink.t) (ds : list ec2.ClassicLinkDnsSupport.t)
  (w : world conn) :
  exists vpc' w',
    setVPCAttribute DescribeVpcAttribute vpc
      (Some (ec2.DescribeVpcClassicLinkOutput.mk (map Some cls)))
      (Some (ec2.DescribeVpcClassicLinkDnsSupportOutput.mk (map Some ds))) w
    = Done (vpc', None) w'
    /\ history w' = history w ++ [None; None]
    /\ (described_by v vpc -> described_by v vpc').
Proof.
  unfold setVPCAttribute, bind, on_store, call. simpl.
  match goal with
  | |- context [DescribeVpcAttribute ?i ?c] =>
      destruct (attribute_ok i c) as (o1 & h1 & d1 & c1 & -> & Hh1 & _)
  end.
  simpl. rewrite Hh1. simpl.
  match goal with
  | |- context [DescribeVpcAttribute ?i ?c] =>
      destruct (attribute_ok i c) as (o2 & h2 & d2 & c2 & -> & _ & Hd2)
  end.
  simpl. rewrite Hd2. simpl.
  match goal with
  | |- context [classicLink_scan ?x (map Some cls) ?s] =>
      destruct (proj1 (described_by_scans v x cls ds s))
        as (vpc1 & -> & Hkeep1)
  end.
  simpl.
  match goal with
  | |- context [classicLinkDnsSupport_scan ?x (map Some ds) ?s] =>
      destruct (proj2 (described_by_scans v x cls ds s))
        as (vpc2 & -> & Hkeep2)
  end.
  simpl. eexists _, _. split; [reflexivity|]. simpl.
  split; [by rewrite <- app_assoc|].
  intros Hvpc. apply Hkeep2, Hkeep1. by destruct vpc.
Qed.

Lemma GetVPCs_loop_success (cls : list ec2.VpcClassicLink.t)
  (ds : list ec2.ClassicLinkDnsSupport.t) (vs : list ec2.Vpc.t)
  (res : VPCs Tags) (w : world conn) :
  exists vpcs w',
    GetVPCs_loop DescribeVpcAttribute Tags_zero setTags
      (Some (ec2.DescribeVpcClassicLinkOutput.mk (map Some cls)))
      (Some (ec2.DescribeVpcClassicLinkDnsSupportOutput.mk (map Some ds)))
      res (map Some vs) w
    = Done (Some (res ++ vpcs), None) w'
    /\ history w' = history w ++ repeat None (2 * length vs)
    /\ Forall2 described_by vs vpcs.
Proof.
  revert res w. induction vs as [|v vs IH]; intros res w.
  - exists [], w. simpl. rewrite !app_nil_r. by repeat split.
  - simpl. unfold bind at 1. simpl. unfold bind at 1. simpl.
    unfold bind at 1, on_store at 1.
    destruct (setTags_ok Tags_zero (ec2.Vpc.Tags v) (strs w))
      as (tags & σ1 & ->).
    unfold bind at 1.
    match goal with
    | |- context [setVPCAttribute _ ?x _ _ ?w1] =>
        destruct (setVPCAttribute_success v x cls ds w1)
          as (vpc' & w2 & -> & Hhist2 & Hkeep)
    end.
    destruct (IH (res ++ [vpc']) w2) as (vpcs & w' & -> & Hhist & Hall).
    exists (vpc' :: vpcs), w'. split; [by rewrite <- app_assoc|].
    split.
    + rewrite Hhist, Hhist2. simpl. rewrite <- app_assoc. simpl.
      replace (length vs + S (length vs + 0))%nat
        with (S (length vs + (length vs + 0)))%nat by lia.
      done.
    + constructor; [|done]. apply Hkeep.
      unfold described_by.
      destruct (ec2.Vpc.Ipv6CidrBlockAssociationSet v); by repeat split.
Qed.

(** X18: when the three describe calls succeed, every
    [DescribeVpcAttribute] call succeeds with both attributes present, no
    entry of the three answers is nil and [setTags] completes, [GetVPCs]
    returns the nil error and one [VPC] per described VPC, in the order
    of the answer, each with the VPC's id, CIDR block and tenancy pointers
    and with the IPv6 flag true or nil (never false); it makes three calls
    and two more per VPC. *)
Theorem GetVPCs_success (w : world conn) (vs : list ec2.Vpc.t)
  (cls : list ec2.VpcClassicLink.t) (ds : list ec2.ClassicLinkDnsSupport.t)
  (c1 c2 c3 : conn) :
  DescribeVpcs ec2.DescribeVpcsInput.mk (remote w)
  = (Some (ec2.DescribeVpcsOutput.mk (map Some vs)), None, c1) ->
  DescribeVpcClassicLink ec2.DescribeVpcClassicLinkInput.mk c1
  = (Some (ec2.DescribeVpcClassicLinkOutput.mk (map Some cls)), None, c2) ->
  DescribeVpcClassicLinkDnsSupport
    ec2.DescribeVpcClassicLinkDnsSupportInput.mk c2
  = (Some (ec2.DescribeVpcClassicLinkDnsSupportOutput.mk (map Some ds)),
     None, c3) ->
  exists vpcs w',
    GetVPCs DescribeVpcs DescribeVpcClassicLink
      DescribeVpcClassicLinkDnsSupport DescribeVpcAttribute Tags_zero
      setTags w
    = Done (Some vpcs, None) w'
    /\ history w' = history w ++ repeat None (3 + 2 * length vs)
    /\ Forall2 described_by vs vpcs.
Proof.
  intros H1 H2 H3. unfold GetVPCs, bind, call.
  rewrite H1. simpl. rewrite H2. simpl. rewrite H3. simpl.
  match goal with
  | |- context [GetVPCs_loop _ _ _ _ _ _ _ ?w3] =>
      destruct (GetVPCs_loop_success cls ds vs [] w3)
        as (vpcs & w' & -> & Hhist & Hall)
  end.
  exists vpcs, w'. split; [done|]. split; [|done].
  rewrite Hhist. simpl. by rewrite <- !app_assoc.
Qed.

End Success.

End VPCProperties.

Lemma scan_first_match_witness :
  classicLink_scan
    (VPC.mk None None (Some tt) (Some 3%nat) None None None None None)
    ([Some (ec2.VpcClassicLink.mk (Some false) (Some 0%nat));
      Some (ec2.VpcClassicLink.mk (Some true) (Some 2%nat)); None])
    ["a"; "b"; "vpc-1"; "vpc-1"]
  = Done (VPC.mk None None (Some tt) (Some 3%nat) None None None
                 (Some true) None)
         ["a"; "b"; "vpc-1"; "vpc-1"].
Proof.
  apply (proj1 (scan_first_match
                  (VPC.mk None None (Some tt) (Some 3%nat) None None None
                          None None)
                  ["a"; "b"; "vpc-1"; "vpc-1"])
           [ec2.VpcClassicLink.mk (Some false) (Some 0%nat)]
           (ec2.VpcClassicLink.mk (Some true) (Some 2%nat)) [None]).
  - intros x [<-|[]]. simpl. discriminate.
  - reflexivity.
Defined.

Lemma GetVPCs_success_witness :
  exists vpcs w',
    GetVPCs sample_two_Vpcs sample_DescribeVpcClassicLink
      sample_DescribeVpcClassicLinkDnsSupport sample_attribute_ok []
      sample_setTags (mkWorld sample_store [] tt [])
    = Done (Some vpcs, None) w'
    /\ history w' = repeat None 7
    /\ map VPC.VPCId vpcs = [Some 3%nat; Some 2%nat]
    /\ map VPC.AssignGeneratedIPv6CIDRBlock vpcs = [None; Some true].
Proof.
  destruct (GetVPCs_success sample_two_Vpcs sample_DescribeVpcClassicLink
              sample_DescribeVpcClassicLinkDnsSupport sample_attribute_ok
              [] sample_setTags)
    with (w := mkWorld sample_store [] tt [])
         (vs := [ec2.Vpc.mk (Some 9%nat) (Some 9%nat) [] None (Some 3%nat);
                 ec2.Vpc.mk (Some 9%nat) None
                   [Some ec2.VpcIpv6CidrBlockAssociation.mk] None
                   (Some 2%nat)])
         (cls := @nil ec2.VpcClassicLink.t)
         (ds := @nil ec2.ClassicLinkDnsSupport.t)
         (c1 := tt) (c2 := tt) (c3 := tt)
    as (vpcs & w' & Hrun & Hhist & Hall).
  - intros input c.
    exists (ec2.DescribeVpcAttributeOutput.mk
              (Some (ec2.AttributeBooleanValue.mk (Some true)))
              (Some (ec2.AttributeBooleanValue.mk (Some false)))),
      (ec2.AttributeBooleanValue.mk (Some true)),
      (ec2.AttributeBooleanValue.mk (Some false)), c.
    split; [reflexivity|]. split; reflexivity.
  - intros t src σ. exists (t ++ default [] src), σ. reflexivity.
  - reflexivity.
  - reflexivity.
  - reflexivity.
  - exists vpcs, w'. split; [exact Hrun|]. split; [exact Hhist|].
    inversion Hall as [|v1 p1 l1 l1' (Hid1 & _ & _ & Hv61) Hall1]; subst.
    inversion Hall1 as [|v2 p2 l2 l2' (Hid2 & _ & _ & Hv62) Hall2]; subst.
    inversion Hall2; subst. simpl.
    rewrite Hid1, Hid2, Hv61, Hv62. split; reflexivity.
Defined.
